(** * PromptCanva-Pro backend: quota ledger and durable JSON store

    A shallow embedding of [backend/services/usage_tracker.py] and
    [backend/services/persistent_storage.py], and the properties of the
    quota ledger and of the durable append store that hold (or fail) on it.

    Files are modelled by what reading them yields: a file is absent, holds
    a JSON document, or makes the reader raise.  Exceptions are explicit
    ([outcome]); operations thread the file system through a small
    state-and-exception monad. *)

From Stdlib Require Import ZArith Lia Bool.
From Stdlib Require Import Ascii String Sorted.
From stdpp Require Import base option list strings gmap fin_maps.

Local Open Scope string_scope.
Local Open Scope Z_scope.

(** ** Results and exceptions *)

(** The exception classes the two services distinguish. *)
Inductive exn : Set :=
| FileNotFoundError
| JSONDecodeError
| OSError          (* PermissionError, ENOSPC, IsADirectoryError, ... *)
| TypeError
| AttributeError.

Inductive outcome (A : Type) : Type :=
| Returns (a : A)
| Raises (e : exn).
Arguments Returns {A} a.
Arguments Raises {A} e.

(** State-and-exception monad: a Python method run on a store [S]. *)
Definition M (S A : Type) : Type := S -> outcome A * S.

Definition ret {S A} (a : A) : M S A := fun s => (Returns a, s).
Definition raise {S A} (e : exn) : M S A := fun s => (Raises e, s).
Definition bind {S A B} (m : M S A) (k : A -> M S B) : M S B :=
  fun s => match m s with
           | (Returns a, s') => k a s'
           | (Raises e, s') => (Raises e, s')
           end.
(** [try: m except Exception as e: h e] *)
Definition try_except {S A} (m : M S A) (h : exn -> M S A) : M S A :=
  fun s => match m s with
           | (Returns a, s') => (Returns a, s')
           | (Raises e, s') => h e s'
           end.
Definition get {S} : M S S := fun s => (Returns s, s).

Notation "'let!' x ':=' m 'in' k" := (bind m (fun x => k))
  (at level 10, x name, m at level 100, k at level 200,
   format "'[v' 'let!'  x  ':='  m  'in' '/' k ']'").
Notation "'do!' m 'in' k" := (bind m (fun _ => k))
  (at level 10, m at level 100, k at level 200,
   format "'[v' 'do!'  m  'in' '/' k ']'").

(** ** Calendar dates and [strftime('%Y-%m-%d')] *)

(** The part of Python's [datetime] the ledger relies on: the calendar
    date of a clock reading, going back a number of days, and the
    [%Y-%m-%d] format whose lexicographic order the cleanup compares. *)

Module Calendar.

Record date : Set := mkdate { year : Z; month : Z; day : Z }.

Definition is_leap (y : Z) : bool :=
  (y mod 4 =? 0) && (negb (y mod 100 =? 0) || (y mod 400 =? 0)).

Definition days_in_month (y m : Z) : Z :=
  if m =? 2 then (if is_leap y then 29 else 28)
  else if (m =? 4) || (m =? 6) || (m =? 9) || (m =? 11) then 30
  else 31.

Definition valid_date (d : date) : Prop :=
  1 <= month d <= 12 /\ 1 <= day d <= days_in_month (year d) (month d).

(** What [datetime.now(timezone.utc)] can return on a running server: a
    calendar date of the Unix era, within [datetime.MAXYEAR]. *)
Definition clock_date (d : date) : Prop :=
  valid_date d /\ 1970 <= year d <= 9999.

(** [d - timedelta(days=1)] *)
Definition prev_day (d : date) : date :=
  if 1 <? day d then mkdate (year d) (month d) (day d - 1)
  else if 1 <? month d
       then mkdate (year d) (month d - 1) (days_in_month (year d) (month d - 1))
       else mkdate (year d - 1) 12 31.

(** [d - timedelta(days=n)] *)
Fixpoint minus_days (n : nat) (d : date) : date :=
  match n with
  | O => d
  | S k => minus_days k (prev_day d)
  end.

(** [d + timedelta(days=1)] *)
Definition next_day (d : date) : date :=
  if day d <? days_in_month (year d) (month d)
  then mkdate (year d) (month d) (day d + 1)
  else if month d <? 12
       then mkdate (year d) (month d + 1) 1
       else mkdate (year d + 1) 1 1.

(** Chronological order, as a comparison on (year, month, day). *)
Definition date_compare (a b : date) : comparison :=
  match year a ?= year b with
  | Eq => match month a ?= month b with
          | Eq => day a ?= day b
          | c => c
          end
  | c => c
  end.

Definition date_lt (a b : date) : Prop := date_compare a b = Lt.
Definition date_le (a b : date) : Prop := date_compare a b <> Gt.

(** Dates whose fields fit the columns of [%Y-%m-%d]. *)
Definition fits (d : date) : Prop :=
  0 <= year d < 10000 /\ 0 <= month d < 100 /\ 0 <= day d < 100.

Definition digit (n : Z) : ascii := ascii_of_nat (48 + Z.to_nat (n mod 10)).

(** The last [width] decimal digits of [n], most significant first. *)
Fixpoint zero_padded (width : nat) (n : Z) : string :=
  match width with
  | O => ""
  | S w => zero_padded w (n / 10) +:+ String (digit n) ""
  end.

(** [d.strftime('%Y-%m-%d')]; for the years 1000..9999 [%Y] is the four
    digits of the year. *)
Definition strftime_ymd (d : date) : string :=
  zero_padded 4 (year d) +:+ "-" +:+ zero_padded 2 (month d) +:+ "-"
    +:+ zero_padded 2 (day d).

End Calendar.

(** ** Quota ledger: [services/usage_tracker.py] *)

(** In every method [now] is the UTC date that [datetime.now(timezone.utc)]
    reads during the call; the readings of one call fall on one date.  The
    argument [w] of the methods that save is what the file system does to
    that save. *)

Module UsageTracker.
Import Calendar.

(** The ledger: date key -> identity key -> count (a JSON object of JSON
    objects of integers). *)
Abbreviation bucket := (gmap string Z).
Abbreviation ledger := (gmap string (gmap string Z)).

(** The backing file [usage_data.json], by what [open] and [json.load]
    do on it.  [FileCorrupt] is a file whose text [json.load] rejects with
    [JSONDecodeError] (an empty or truncated file); [FileUnreadable] is a
    file on which [open] raises an [OSError] other than
    [FileNotFoundError] (permission denied, a directory at that path). *)
Inductive usage_file : Type :=
| FileAbsent
| FileCorrupt
| FileUnreadable
| FileJson (data : ledger).

(** What the environment does to one [open(..., 'w')] + [json.dump]:
    nothing, refuse the [open] (the file is left as it was), or fail the
    write after [open] has truncated the file. *)
Inductive save_fault : Set := SaveOk | SaveOpenFails | SaveWriteFails.

Definition limits (class : string) : Z :=
  if String.eqb class "anonymous" then 1
  else if String.eqb class "authenticated" then 5
  else 0.

(** Python truthiness of an [Optional[str]]. *)
Definition truthy (o : option string) : bool :=
  match o with
  | Some s => negb (String.eqb s "")
  | None => false
  end.

(** [f"{o}"] *)
Definition fstr (o : option string) : string :=
  match o with
  | Some s => s
  | None => "None"
  end.

(** [with open(self.usage_file, 'r') as f: return json.load(f)] *)
Definition json_load : M usage_file ledger :=
  fun f => match f with
           | FileAbsent => (Raises FileNotFoundError, f)
           | FileCorrupt => (Raises JSONDecodeError, f)
           | FileUnreadable => (Raises OSError, f)
           | FileJson data => (Returns data, f)
           end.

(** [with open(self.usage_file, 'w') as f: json.dump(data, f, indent=2)] *)
Definition json_dump (w : save_fault) (data : ledger) : M usage_file unit :=
  fun f => match w with
           | SaveOk => (Returns tt, FileJson data)
           | SaveOpenFails => (Raises OSError, f)
           | SaveWriteFails => (Raises OSError, FileCorrupt)
           end.

Definition _load_usage_data : M usage_file ledger :=
  try_except json_load
    (fun e => match e with
              | FileNotFoundError | JSONDecodeError => ret ∅
              | _ => raise e
              end).

Definition _save_usage_data (w : save_fault) (data : ledger)
  : M usage_file unit :=
  try_except (json_dump w data) (fun _ => ret tt).

Definition _ensure_usage_file (w : save_fault) : M usage_file unit :=
  let! f := get in
  match f with
  | FileAbsent => _save_usage_data w ∅
  | _ => ret tt
  end.

Definition _get_today_key (now : date) : string := strftime_ymd now.

Definition _cleanup_old_data (now : date) (data : ledger) : ledger :=
  let cutoff_date := minus_days 7 now in
  let cutoff_key := strftime_ymd cutoff_date in
  filter (fun kv : string * bucket => String.leb cutoff_key kv.1 = true) data.

Definition check_usage_limit (now : date) (user_id ip_address : option string)
  : M usage_file (bool * Z * Z) :=
  let! data := _load_usage_data in
  let today_key := _get_today_key now in
  let data := _cleanup_old_data now data in
  let today_data := default ∅ (data !! today_key) in
  if truthy user_id then
    let user_key := "user:" +:+ fstr user_id in
    let current_usage := default 0 (today_data !! user_key) in
    let limit := limits "authenticated" in
    ret (current_usage <? limit, current_usage, limit)
  else
    let ip_key := "ip:" +:+ fstr ip_address in
    let current_usage := default 0 (today_data !! ip_key) in
    let limit := limits "anonymous" in
    ret (current_usage <? limit, current_usage, limit).

Definition increment_usage (w : save_fault) (now : date)
    (user_id ip_address : option string) : M usage_file bool :=
  let! data := _load_usage_data in
  let today_key := _get_today_key now in
  let data := _cleanup_old_data now data in
  let data := match data !! today_key with
              | Some _ => data
              | None => <[today_key := ∅]> data
              end in
  let today_data := default ∅ (data !! today_key) in
  if truthy user_id then
    let user_key := "user:" +:+ fstr user_id in
    let current_usage := default 0 (today_data !! user_key) in
    let limit := limits "authenticated" in
    if limit <=? current_usage then ret false
    else
      let data := <[today_key := <[user_key := current_usage + 1]> today_data]> data in
      do! _save_usage_data w data in
      ret true
  else
    let ip_key := "ip:" +:+ fstr ip_address in
    let current_usage := default 0 (today_data !! ip_key) in
    let limit := limits "anonymous" in
    if limit <=? current_usage then ret false
    else
      let data := <[today_key := <[ip_key := current_usage + 1]> today_data]> data in
      do! _save_usage_data w data in
      ret true.

(** [if key in data[today_key]: del data[today_key][key]] *)
Definition del_entry (today_key key : string) (data : ledger) : ledger :=
  let today_data := default ∅ (data !! today_key) in
  match today_data !! key with
  | Some _ => <[today_key := delete key today_data]> data
  | None => data
  end.

Definition reset_usage (w : save_fault) (now : date)
    (user_id ip_address : option string) : M usage_file bool :=
  try_except
    (let! data := _load_usage_data in
     let today_key := _get_today_key now in
     do! match data !! today_key with
         | Some _ =>
             let data :=
               if truthy user_id
               then del_entry today_key ("user:" +:+ fstr user_id) data
               else del_entry today_key ("ip:" +:+ fstr ip_address) data in
             _save_usage_data w data
         | None => ret tt
         end in
     ret true)
    (fun _ => ret false).

Definition __init__ (w : save_fault) : M usage_file unit :=
  _ensure_usage_file w.

(** [tomorrow.isoformat()] for the midnight that starts the day after
    [now], in UTC.  This is the value for a date before 9999-12-31; on
    that last date [+ timedelta(days=1)] raises [OverflowError], so the
    properties that read the reset time take [year now < 9999]. *)
Definition _get_reset_time (now : date) : string :=
  let tomorrow := next_day now in
  strftime_ymd tomorrow +:+ "T00:00:00+00:00".

(** The dictionary [get_usage_stats] returns. *)
Record usage_stats : Type := mkstats {
  can_generate : bool;
  current_usage : Z;
  limit : Z;
  remaining : Z;
  reset_time : string;
  user_type : string
}.

Definition get_usage_stats (now : date) (user_id ip_address : option string)
  : M usage_file usage_stats :=
  let! r := check_usage_limit now user_id ip_address in
  let '(can_generate, current_usage, limit) := r in
  ret {| can_generate := can_generate;
         current_usage := current_usage;
         limit := limit;
         remaining := Z.max 0 (limit - current_usage);
         reset_time := _get_reset_time now;
         user_type := if truthy user_id then "authenticated" else "anonymous" |}.

(** *** Observations used to state the properties *)

Definition identity_key (user_id ip_address : option string) : string :=
  if truthy user_id then "user:" +:+ fstr user_id
  else "ip:" +:+ fstr ip_address.

Definition identity_limit (user_id : option string) : Z :=
  if truthy user_id then limits "authenticated" else limits "anonymous".

(** The ledger a reader finds in the file, when there is one. *)
Definition stored_ledger (f : usage_file) : option ledger :=
  match f with
  | FileJson data => Some data
  | _ => None
  end.

(** The count stored for an identity under a date key. *)
Definition stored_count (f : usage_file) (date_key key : string) : Z :=
  match stored_ledger f with
  | Some data => default 0 (default ∅ (data !! date_key) !! key)
  | None => 0
  end.

(** The bucket stored under a date key. *)
Definition stored_bucket (f : usage_file) (date_key : string) : option bucket :=
  match stored_ledger f with
  | Some data => data !! date_key
  | None => None
  end.


(** The ledger a loader gets from a file it can open. *)
Definition loaded (f : usage_file) : ledger :=
  match f with
  | FileJson data => data
  | _ => ∅
  end.

(** The dictionary [increment_usage] works on once today's bucket is
    ensured. *)
Definition working_copy (now : date) (data : ledger) : ledger :=
  let data := _cleanup_old_data now data in
  match data !! _get_today_key now with
  | Some _ => data
  | None => <[_get_today_key now := ∅]> data
  end.

(** [n] calls of [increment_usage] in a row, every save succeeding: the
    values returned and the file left. *)
Fixpoint commit_n (n : nat) (now : date) (user_id ip_address : option string)
    (f : usage_file) : list (outcome bool) * usage_file :=
  match n with
  | O => ([], f)
  | S k =>
      let (r, f') := increment_usage SaveOk now user_id ip_address f in
      let (rs, f'') := commit_n k now user_id ip_address f' in
      (r :: rs, f'')
  end.

(** The count both [check_usage_limit] and [increment_usage] read: the one
    of today's bucket after the cleanup. *)
Definition seen_count (now : date) (f : usage_file) (key : string) : Z :=
  default 0 (default ∅ (_cleanup_old_data now (loaded f) !! _get_today_key now)
               !! key).

(** The daily limit of the class an identity key belongs to. *)
Definition key_limit (key : string) : Z :=
  if String.prefix "user:" key then limits "authenticated"
  else limits "anonymous".

(** Every stored count is at least 1 and at most the limit of its key. *)
Definition counts_within_limits (data : ledger) : Prop :=
  forall (date_key key : string) (b : bucket) (c : Z),
    data !! date_key = Some b -> b !! key = Some c -> 1 <= c <= key_limit key.

End UsageTracker.

(** ** Concurrent commits on the quota ledger

    [UsageTracker] takes no lock, so the threads of the request pool may
    interleave between the [_load_usage_data] and the [_save_usage_data]
    of [increment_usage].  A thread is modelled by the two atomic file
    accesses of that method. *)

Module Interleaving.
Import Calendar UsageTracker.

(** [increment_usage] up to (not including) its [_save_usage_data]:
    [None] when the method returns [False], else the dictionary it is
    about to save. *)
Definition increment_begin (now : date) (user_id ip_address : option string)
  : M usage_file (option ledger) :=
  let! data := _load_usage_data in
  let today_key := _get_today_key now in
  let data := _cleanup_old_data now data in
  let data := match data !! today_key with
              | Some _ => data
              | None => <[today_key := ∅]> data
              end in
  let today_data := default ∅ (data !! today_key) in
  if truthy user_id then
    let user_key := "user:" +:+ fstr user_id in
    let current_usage := default 0 (today_data !! user_key) in
    let limit := limits "authenticated" in
    if limit <=? current_usage then ret None
    else ret (Some (<[today_key := <[user_key := current_usage + 1]> today_data]> data))
  else
    let ip_key := "ip:" +:+ fstr ip_address in
    let current_usage := default 0 (today_data !! ip_key) in
    let limit := limits "anonymous" in
    if limit <=? current_usage then ret None
    else ret (Some (<[today_key := <[ip_key := current_usage + 1]> today_data]> data)).

(** The rest of [increment_usage]. *)
Definition increment_end (w : save_fault) (pending : option ledger)
  : M usage_file bool :=
  match pending with
  | None => ret false
  | Some data => do! _save_usage_data w data in ret true
  end.

Inductive thread : Type :=
| Ready (user_id ip_address : option string)
| Loaded (pending : option ledger)
| Finished (result : outcome bool).

(** One atomic step of a thread on the shared file. *)
Definition step_thread (now : date) (t : thread) (f : usage_file)
  : thread * usage_file :=
  match t with
  | Ready user_id ip_address =>
      match increment_begin now user_id ip_address f with
      | (Returns pending, f') => (Loaded pending, f')
      | (Raises e, f') => (Finished (Raises e), f')
      end
  | Loaded pending =>
      let (r, f') := increment_end SaveOk pending f in (Finished r, f')
  | Finished r => (Finished r, f)
  end.

(** Run a schedule: the list of the indices of the threads that step. *)
Fixpoint run (now : date) (schedule : list nat)
    (f : usage_file) (threads : list thread) : usage_file * list thread :=
  match schedule with
  | [] => (f, threads)
  | i :: schedule' =>
      match threads !! i with
      | Some t =>
          let (t', f') := step_thread now t f in
          run now schedule' f' (<[i := t']> threads)
      | None => run now schedule' f threads
      end
  end.

(** The number of threads whose commit returned [True]. *)
Definition is_success (t : thread) : bool :=
  match t with
  | Finished (Returns true) => true
  | _ => false
  end.

Definition successes (threads : list thread) : nat :=
  length (List.filter is_success threads).

(** The schedule that runs the threads one after the other, each to its
    end: what a lock around [increment_usage] would enforce. *)
Definition serial_schedule (n : nat) : list nat :=
  flat_map (fun i => [i; i]) (seq 0 n).

(** The ledger a thread is about to save keeps the counts within the
    limits. *)
Definition thread_within_limits (t : thread) : Prop :=
  match t with
  | Loaded (Some data) => counts_within_limits data
  | _ => True
  end.

End Interleaving.

(** ** Durable append store: [services/persistent_storage.py] *)

Module PersistentStorage.

(** A JSON value, as [json.load] returns it and [json.dump] writes it.
    A number is kept as its literal; a dict keeps its insertion order. *)
#[local] Unset Elimination Schemes.
Inductive value : Type :=
| VNull
| VBool (b : bool)
| VNum (literal : string)
| VStr (s : string)
| VList (items : list value)
| VDict (fields : list (string * value)).
#[local] Set Elimination Schemes.

(** A file: its text is a JSON document, or reading it raises (the text
    is not JSON, is cut short, or the file cannot be opened). *)
Inductive file : Type :=
| FJson (v : value)
| FBad.

(** The files below [data_dir], by path relative to it.  A directory has
    no entry of its own: it is there as the part before a [/] of the paths
    of the files below it. *)
Abbreviation fs := (gmap string file).

Definition images_file : string := "images.json".
Definition users_file : string := "users.json".
Definition generations_file : string := "generations.json".
Definition backup_dir : string := "backups".

(** [os.path.join(dir, name)] *)
Definition path_join (dir name : string) : string := dir +:+ "/" +:+ name.

(** Where the environment makes one [_write_json_atomic] fail: nowhere,
    at [open(temp_path, 'w')], inside [json.dump] (the temporary file is
    left cut short), at the rename of the target to [.backup], or at the
    rename of the temporary file to the target. *)
Inductive write_fault : Set :=
| NoFault | OpenFails | DumpFails | BackupFails | ReplaceFails.

Definition backup_fails (w : write_fault) : bool :=
  match w with BackupFails => true | _ => false end.
Definition replace_fails (w : write_fault) : bool :=
  match w with ReplaceFails => true | _ => false end.

(** *** File-system primitives *)

Definition path_exists (p : string) : M fs bool :=
  fun s => (Returns (bool_decide (is_Some (s !! p))), s).

(** [with open(p, 'r') as f: return json.load(f)] *)
Definition json_load (p : string) : M fs value :=
  fun s => match s !! p with
           | None => (Raises FileNotFoundError, s)
           | Some FBad => (Raises JSONDecodeError, s)
           | Some (FJson v) => (Returns v, s)
           end.

(** [with open(p, 'w') as f: json.dump(data, f, ...)] *)
Definition json_dump (w : write_fault) (p : string) (data : value)
  : M fs unit :=
  fun s => match w with
           | OpenFails => (Raises OSError, s)
           | DumpFails => (Raises OSError, <[p := FBad]> s)
           | _ => (Returns tt, <[p := FJson data]> s)
           end.

(** [os.replace(src, dst)] *)
Definition os_replace (fails : bool) (src dst : string) : M fs unit :=
  fun s => if fails then (Raises OSError, s)
           else match s !! src with
                | Some c => (Returns tt, <[dst := c]> (delete src s))
                | None => (Raises FileNotFoundError, s)
                end.

(** [os.remove(p)]; where no file is stored it raises (on a missing path
    as on a directory, which has no entry of its own in the store). *)
Definition os_remove (p : string) : M fs unit :=
  fun s => match s !! p with
           | Some _ => (Returns tt, delete p s)
           | None => (Raises FileNotFoundError, s)
           end.

Fixpoint remove_prefix (prefix s : string) : option string :=
  match prefix, s with
  | EmptyString, _ => Some s
  | String a prefix', String b s' =>
      if Ascii.eqb a b then remove_prefix prefix' s' else None
  | String _ _, EmptyString => None
  end.

(** The first component of a relative path: the text before its first
    [/]. *)
Fixpoint first_component (s : string) : string :=
  match s with
  | EmptyString => EmptyString
  | String c s' =>
      if Ascii.eqb c "/" then EmptyString else String c (first_component s')
  end.

(** The name under which the file at [path] shows in the directory [dir]:
    its own name when it lies directly in [dir], the name of the
    subdirectory of [dir] it lies in otherwise. *)
Definition entry_name (dir path : string) : option string :=
  match remove_prefix (dir +:+ "/") path with
  | Some rest => Some (first_component rest)
  | None => None
  end.

(** [os.listdir(dir)]: the names of the entries of [dir], files and
    subdirectories, each once. *)
Definition os_listdir (dir : string) : M fs (list string) :=
  fun s => (Returns (remove_dups
                       (omap (fun kv : string * file => entry_name dir kv.1)
                          (map_to_list s))), s).

(** Some file is stored below [p]: [p] is a directory. *)
Definition is_dir (p : string) (s : fs) : bool :=
  existsb (fun kv : string * file =>
             match remove_prefix (p +:+ "/") kv.1 with
             | Some _ => true
             | None => false
             end)
    (map_to_list s).

(** [s.endswith(suffix)] *)
Definition endswith (s suffix : string) : bool :=
  let n := String.length s in
  let m := String.length suffix in
  (m <=? n)%nat && String.eqb (String.substring (n - m) m s) suffix.

(** *** Python operations on JSON values *)

Fixpoint assoc_get (k : string) (fields : list (string * value))
  : option value :=
  match fields with
  | [] => None
  | (k', v) :: fields' => if String.eqb k' k then Some v else assoc_get k fields'
  end.

Fixpoint assoc_set (k : string) (v : value) (fields : list (string * value))
  : list (string * value) :=
  match fields with
  | [] => [(k, v)]
  | (k', v') :: fields' =>
      if String.eqb k' k then (k, v) :: fields'
      else (k', v') :: assoc_set k v fields'
  end.

(** [d.get(k)]: [None] for a missing key; only a dict has [get]. *)
Definition py_get {S} (d : value) (k : string) : M S value :=
  match d with
  | VDict fields => ret (default VNull (assoc_get k fields))
  | _ => raise AttributeError
  end.

(** [d[k] = v] *)
Definition py_setitem {S} (d : value) (k : string) (v : value) : M S value :=
  match d with
  | VDict fields => ret (VDict (assoc_set k v fields))
  | VList _ => raise TypeError
  | _ => raise TypeError
  end.

(** [l.append(x)]: only a list has [append]. *)
Definition py_append {S} (l : value) (x : value) : M S value :=
  match l with
  | VList items => ret (VList (items ++ [x]))
  | _ => raise AttributeError
  end.

(** [len(l)] *)
Definition py_len {S} (l : value) : M S nat :=
  match l with
  | VList items => ret (length items)
  | VDict fields => ret (length fields)
  | VStr s => ret (String.length s)
  | _ => raise TypeError
  end.

Fixpoint chars (s : string) : list value :=
  match s with
  | EmptyString => []
  | String c s' => VStr (String c "") :: chars s'
  end.

(** The items [for x in v] goes through. *)
Definition py_iter {S} (v : value) : M S (list value) :=
  match v with
  | VList items => ret items
  | VDict fields => ret (map (fun kv => VStr kv.1) fields)
  | VStr s => ret (chars s)
  | _ => raise TypeError
  end.

(** [v == s] for a [str] [s]. *)
Definition eq_str (v : value) (s : string) : bool :=
  match v with
  | VStr t => String.eqb t s
  | _ => false
  end.

(** *** The methods of [PersistentStorage] *)

Definition _write_json_atomic (w : write_fault) (file_path : string)
    (data : value) : M fs unit :=
  let temp_path := file_path +:+ ".tmp" in
  try_except
    (do! json_dump w temp_path data in
     let! target_exists := path_exists file_path in
     do! (if target_exists
          then let backup_path := file_path +:+ ".backup" in
               os_replace (backup_fails w) file_path backup_path
          else ret tt) in
     os_replace (replace_fails w) temp_path file_path)
    (fun e =>
       let! temp_exists := path_exists temp_path in
       do! (if temp_exists then os_remove temp_path else ret tt) in
       raise e).

(** [default if default is not None else []] *)
Definition or_empty_list (default : value) : value :=
  match default with
  | VNull => VList []
  | _ => default
  end.

(** [None] stands for falling through to the last line of the method. *)
Definition _read_json_safe (file_path : string) (default : value)
  : M fs value :=
  let! found :=
    try_except
      (let! target_exists := path_exists file_path in
       if target_exists
       then let! data := json_load file_path in ret (Some data)
       else ret None)
      (fun _ =>
         let backup_path := file_path +:+ ".backup" in
         let! backup_exists := path_exists backup_path in
         if backup_exists
         then try_except
                (let! data := json_load backup_path in ret (Some data))
                (fun _ => ret None)
         else ret None) in
  match found with
  | Some data => ret data
  | None => ret (or_empty_list default)
  end.

Fixpoint insert_desc (x : string) (l : list string) : list string :=
  match l with
  | [] => [x]
  | y :: l' => if String.leb y x then x :: l else y :: insert_desc x l'
  end.

(** [l.sort(reverse=True)] *)
Definition sort_reverse (l : list string) : list string :=
  foldr insert_desc [] l.

(** The loop [for old_backup in ...: os.remove(os.path.join(dir,
    old_backup))].  [refused] tells the paths on which the environment
    makes [os.remove] raise (permission denied, a file in use); the first
    removal that raises ends the loop. *)
Fixpoint remove_all (refused : string -> bool) (dir : string)
    (names : list string) : M fs unit :=
  match names with
  | [] => ret tt
  | name :: names' =>
      let p := path_join dir name in
      do! (if refused p then raise OSError else os_remove p) in
      remove_all refused dir names'
  end.

Definition _cleanup_old_backups (refused : string -> bool) : M fs unit :=
  try_except
    (let! names := os_listdir backup_dir in
     let backup_files := List.filter (fun f => endswith f ".json") names in
     let backup_files := sort_reverse backup_files in
     remove_all refused backup_dir (drop 20 backup_files))
    (fun _ => ret tt).

(** [timestamp] is [datetime.utcnow().strftime('%Y%m%d_%H%M%S')]; [wi]
    and [wg] are the faults of the two snapshot writes, [refused] the
    removals the environment refuses to the cleanup. *)
Definition _create_backup (wi wg : write_fault) (refused : string -> bool)
    (timestamp : string) : M fs unit :=
  try_except
    (let! images := _read_json_safe images_file (VList []) in
     let backup_images_path :=
       path_join backup_dir ("images_" +:+ timestamp +:+ ".json") in
     do! _write_json_atomic wi backup_images_path images in
     let! generations := _read_json_safe generations_file (VList []) in
     let backup_gen_path :=
       path_join backup_dir ("generations_" +:+ timestamp +:+ ".json") in
     do! _write_json_atomic wg backup_gen_path generations in
     _cleanup_old_backups refused)
    (fun _ => ret tt).

(** The log line after the write takes
    [image_metadata.get('id', 'unknown')].  [wi], [wg] and [refused] are
    what the environment does to the backup every tenth image triggers. *)
Definition save_image (w wi wg : write_fault) (refused : string -> bool)
    (timestamp : string) (image_metadata : value) : M fs unit :=
  try_except
    (let! images := _read_json_safe images_file (VList []) in
     let! images := py_append images image_metadata in
     do! _write_json_atomic w images_file images in
     let! logged_id := py_get image_metadata "id" in
     let! n := py_len images in
     if (n mod 10 =? 0)%nat then _create_backup wi wg refused timestamp
     else ret tt)
    (fun e => raise e).

(** The log line of [get_all_images] takes [len(images)]. *)
Definition get_all_images : M fs value :=
  let! images := _read_json_safe images_file (VList []) in
  let! n := py_len images in
  ret images.

Fixpoint user_images_loop (user_id : string) (items : list value)
  : M fs (list value) :=
  match items with
  | [] => ret []
  | img :: rest =>
      let! owner := py_get img "user_id" in
      let! tail := user_images_loop user_id rest in
      ret (if eq_str owner user_id then img :: tail else tail)
  end.

(** [[img for img in all_images if img.get('user_id') == user_id]] *)
Definition get_user_images (user_id : string) : M fs value :=
  let! all_images := get_all_images in
  let! items := py_iter all_images in
  let! user_images := user_images_loop user_id items in
  ret (VList user_images).

(** The loop of [_initialize_files]; each file comes with its default and
    with the fault of its write. *)
Fixpoint initialize_loop (files_to_init : list (string * value * write_fault))
  : M fs unit :=
  match files_to_init with
  | [] => ret tt
  | (file_path, default_data, w) :: rest =>
      let! present := path_exists file_path in
      do! (if present then ret tt
           else _write_json_atomic w file_path default_data) in
      initialize_loop rest
  end.

Definition _initialize_files (w1 w2 w3 : write_fault) : M fs unit :=
  initialize_loop [(images_file, VList [], w1);
                   (users_file, VDict [], w2);
                   (generations_file, VList [], w3)].

(** The directories are part of the paths; [__init__] is left with
    [_initialize_files]. *)
Definition __init__ (w1 w2 w3 : write_fault) : M fs unit :=
  _initialize_files w1 w2 w3.

(** The loop of [update_image_favorite]; [seen] are the items already
    passed, [rest] those still to visit. *)
Fixpoint favorite_loop (w : write_fault) (image_id user_id : string)
    (is_favorite : bool) (seen rest : list value) : M fs bool :=
  match rest with
  | [] => ret false
  | img :: rest' =>
      let! id := py_get img "id" in
      let! owner := if eq_str id image_id then py_get img "user_id"
                    else ret VNull in
      if eq_str id image_id && eq_str owner user_id then
        let! img := py_setitem img "is_favorite" (VBool is_favorite) in
        do! _write_json_atomic w images_file (VList (seen ++ img :: rest')) in
        ret true
      else favorite_loop w image_id user_id is_favorite (seen ++ [img]) rest'
  end.

Definition update_image_favorite (w : write_fault) (image_id user_id : string)
    (is_favorite : bool) : M fs bool :=
  try_except
    (let! images := _read_json_safe images_file (VList []) in
     let! items := py_iter images in
     favorite_loop w image_id user_id is_favorite [] items)
    (fun _ => ret false).

(** [t_id] and [t_stamp] are the two [datetime.utcnow().isoformat()]. *)
Definition save_generation_record (w : write_fault) (t_id t_stamp : string)
    (user_id image_id : string) (params : value) : M fs unit :=
  try_except
    (let! generations := _read_json_safe generations_file (VList []) in
     let generation_record :=
       VDict [("id", VStr (user_id +:+ "#" +:+ t_id));
              ("user_id", VStr user_id);
              ("image_id", VStr image_id);
              ("timestamp", VStr t_stamp);
              ("parameters", params)] in
     let! generations := py_append generations generation_record in
     _write_json_atomic w generations_file generations)
    (fun _ => ret tt).

(** *** Observations used to state the properties *)

(** [_write_json_atomic] cut after its step 2: the process stops once the
    target has been renamed to [.backup], before the temporary file is
    renamed into place. *)
Definition write_interrupted (file_path : string) (data : value) : M fs unit :=
  let temp_path := file_path +:+ ".tmp" in
  do! json_dump NoFault temp_path data in
  let! target_exists := path_exists file_path in
  if target_exists
  then os_replace false file_path (file_path +:+ ".backup")
  else ret tt.

Definition record_id (r : value) : option value :=
  match r with
  | VDict fields => assoc_get "id" fields
  | _ => None
  end.

Definition record_owner (r : value) : option value :=
  match r with
  | VDict fields => assoc_get "user_id" fields
  | _ => None
  end.

(** The names [os.listdir(backup_dir)] returns. *)
Definition listed (s : fs) : list string :=
  remove_dups
    (omap (fun kv : string * file => entry_name backup_dir kv.1)
       (map_to_list s)).

(** The names of the snapshots in the backups directory: the entries
    whose name ends in [.json], which [_cleanup_old_backups] sorts. *)
Definition snapshots (s : fs) : list string :=
  List.filter (fun f => endswith f ".json") (listed s).

(** The snapshots [_cleanup_old_backups] keeps: the first 20 in reverse
    order of name. *)
Definition retained (s : fs) : list string :=
  take 20 (sort_reverse (snapshots s)).

(** The snapshots [_cleanup_old_backups] sets out to remove, in the order
    of the loop: all but the first 20 in reverse order of name. *)
Definition victims (s : fs) : list string :=
  drop 20 (sort_reverse (snapshots s)).

(** A backups directory that holds the two snapshots of one backup a day,
    for the given days of March 2024. *)
Definition backups_of_days (days : list string) : fs :=
  list_to_map
    (flat_map
       (fun d =>
          [(path_join backup_dir ("images_202403" +:+ d +:+ "_000000.json"),
            FJson (VList []));
           (path_join backup_dir ("generations_202403" +:+ d +:+ "_000000.json"),
            FJson (VList []))])
       days).

(** The backups directory after the writes of the eleventh backup. *)
Definition eleven_backups : fs :=
  backups_of_days
    ["01"; "02"; "03"; "04"; "05"; "06"; "07"; "08"; "09"; "10"; "11"].

(** The backups directory after the writes of the twentieth backup. *)
Definition twenty_backups : fs :=
  backups_of_days
    ["01"; "02"; "03"; "04"; "05"; "06"; "07"; "08"; "09"; "10";
     "11"; "12"; "13"; "14"; "15"; "16"; "17"; "18"; "19"; "20"].

(** The snapshots of the images collection among [names]. *)
Definition image_snapshots (names : list string) : list string :=
  List.filter (String.prefix "images_") names.

(** The loop can remove the entry [name] of the backups directory: the
    environment does not refuse, and [name] is a file, not a directory. *)
Definition removable (refused : string -> bool) (s : fs) (name : string)
  : Prop :=
  refused (path_join backup_dir name) = false
  /\ is_Some (s !! path_join backup_dir name)
  /\ is_dir (path_join backup_dir name) s = false.

(** [a] comes before [b] in a list sorted with [reverse=True]. *)
Definition desc (a b : string) : Prop := String.leb b a = true.

(** A computation leaves the files at the paths in [P] as they are,
    whether it returns or raises. *)
Definition preserves {A} (P : string -> Prop) (m : M fs A) : Prop :=
  forall (s : fs) (q : string), P q -> (m s).2 !! q = s !! q.

(** A path below the backups directory. *)
Definition in_backup_dir (p : string) : Prop :=
  exists name, p = path_join backup_dir name.

(** The records of [items] whose [user_id] is [user_id], in their order:
    what the comprehension of [get_user_images] keeps. *)
Definition owned_by (user_id : string) (items : list value) : list value :=
  List.filter (fun r => eq_str (default VNull (record_owner r)) user_id) items.

(** Every write fails at the step [w]: a fault that makes a write of a
    missing file raise. *)
Definition write_fails (w : write_fault) : Prop :=
  w = OpenFails \/ w = DumpFails \/ w = ReplaceFails.

(** A record matches the pair [update_image_favorite] looks for. *)
Definition matches (image_id user_id : string) (r : value) : Prop :=
  record_id r = Some (VStr image_id) /\ record_owner r = Some (VStr user_id).

End PersistentStorage.

(** * Properties *)

(** ** The date keys sort as the dates do *)

Section CalendarFacts.
Import Calendar.

Lemma ascii_compare_refl (c : ascii) : Ascii.compare c c = Eq.
Proof. unfold Ascii.compare. apply N.compare_refl. Qed.

(** Lexicographic comparison splits over equally long prefixes. *)
Lemma compare_app (a b s t : string) :
  String.length a = String.length b ->
  String.compare (a +:+ s) (b +:+ t)
  = match String.compare a b with
    | Eq => String.compare s t
    | c => c
    end.
Proof.
  revert b. induction a as [|x a IH]; intros [|y b] Hlen; simpl in *; try done.
  destruct (Ascii.compare x y); auto.
Qed.

Lemma compare_sep (c : ascii) (s t : string) :
  String.compare (String c "" +:+ s) (String c "" +:+ t) = String.compare s t.
Proof.
  change (String c "" +:+ s) with (String c s).
  change (String c "" +:+ t) with (String c t).
  cbn [String.compare]. by rewrite ascii_compare_refl.
Qed.

Lemma length_app (a b : string) :
  String.length (a +:+ b) = (String.length a + String.length b)%nat.
Proof. induction a; simpl; auto. Qed.

Lemma zero_padded_length (w : nat) (n : Z) :
  String.length (zero_padded w n) = w.
Proof.
  revert n. induction w as [|w IH]; intros n; simpl; [done|].
  rewrite length_app, IH. simpl. lia.
Qed.

Lemma digit_compare (x y : Z) :
  Ascii.compare (digit x) (digit y) = (x mod 10 ?= y mod 10).
Proof.
  unfold digit.
  assert (Hx : 0 <= x mod 10 < 10) by (apply Z.mod_pos_bound; lia).
  assert (Hy : 0 <= y mod 10 < 10) by (apply Z.mod_pos_bound; lia).
  generalize dependent (x mod 10). generalize dependent (y mod 10).
  intros b Hb a Ha.
  assert (Ea : a = 0 \/ a = 1 \/ a = 2 \/ a = 3 \/ a = 4 \/ a = 5 \/ a = 6
               \/ a = 7 \/ a = 8 \/ a = 9) by lia.
  assert (Eb : b = 0 \/ b = 1 \/ b = 2 \/ b = 3 \/ b = 4 \/ b = 5 \/ b = 6
               \/ b = 7 \/ b = 8 \/ b = 9) by lia.
  repeat (destruct Ea as [-> | Ea]);
    try subst a;
    repeat (destruct Eb as [-> | Eb]); try subst b; reflexivity.
Qed.

Lemma zero_padded_compare (w : nat) (x y : Z) :
  0 <= x < 10 ^ Z.of_nat w -> 0 <= y < 10 ^ Z.of_nat w ->
  String.compare (zero_padded w x) (zero_padded w y) = (x ?= y).
Proof.
  revert x y. induction w as [|w IH]; intros x y Hx Hy.
  - simpl in *. assert (x = 0) by lia. assert (y = 0) by lia. by subst.
  - simpl zero_padded.
    rewrite compare_app by (by rewrite !zero_padded_length).
    rewrite Nat2Z.inj_succ, Z.pow_succ_r in Hx, Hy by lia.
    rewrite IH by (split; [apply Z.div_pos; lia | apply Z.div_lt_upper_bound; lia]).
    cbn [String.compare]. rewrite digit_compare.
    pose proof (Z.div_mod x 10 ltac:(lia)) as Dx.
    pose proof (Z.div_mod y 10 ltac:(lia)) as Dy.
    pose proof (Z.mod_pos_bound x 10 ltac:(lia)) as Bx.
    pose proof (Z.mod_pos_bound y 10 ltac:(lia)) as By.
    destruct (Z.compare_spec (x / 10) (y / 10)) as [E|L|G].
    + destruct (Z.compare_spec (x mod 10) (y mod 10)) as [E'|L'|G'];
        symmetry; [apply Z.compare_eq_iff | apply Z.compare_lt_iff
                  | apply Z.compare_gt_iff]; lia.
    + symmetry; apply Z.compare_lt_iff; lia.
    + symmetry; apply Z.compare_gt_iff; lia.
Qed.

Lemma strftime_ymd_compare (a b : date) :
  fits a -> fits b ->
  String.compare (strftime_ymd a) (strftime_ymd b) = date_compare a b.
Proof.
  intros (Hya & Hma & Hda) (Hyb & Hmb & Hdb).
  unfold strftime_ymd, date_compare.
  rewrite compare_app by (by rewrite !zero_padded_length).
  rewrite zero_padded_compare by (simpl; lia).
  destruct (year a ?= year b); try done.
  rewrite compare_sep.
  rewrite compare_app by (by rewrite !zero_padded_length).
  rewrite zero_padded_compare by (simpl; lia).
  destruct (month a ?= month b); try done.
  rewrite compare_sep.
  apply zero_padded_compare; simpl; lia.
Qed.

Lemma prev_day_valid (d : date) : valid_date d -> valid_date (prev_day d).
Proof.
  destruct d as [y m dd]. unfold valid_date, prev_day, days_in_month; simpl.
  intros [Hm Hd].
  repeat (case_match; simpl in *); lia.
Qed.

Lemma prev_day_lt (d : date) : valid_date d -> date_lt (prev_day d) d.
Proof.
  destruct d as [y m dd]. unfold valid_date, date_lt, date_compare, prev_day; simpl.
  intros [Hm Hd].
  destruct (1 <? dd) eqn:E1; simpl.
  - rewrite !Z.compare_refl. apply Z.compare_lt_iff. lia.
  - destruct (1 <? m) eqn:E2; simpl.
    + rewrite Z.compare_refl.
      replace (m - 1 ?= m) with Lt; [done|]. symmetry. apply Z.compare_lt_iff. lia.
    + replace (y - 1 ?= y) with Lt; [done|]. symmetry. apply Z.compare_lt_iff. lia.
Qed.

Lemma prev_day_year (d : date) : year d - 1 <= year (prev_day d) <= year d.
Proof.
  destruct d as [y m dd]. unfold prev_day; simpl.
  repeat (case_match; simpl); lia.
Qed.

Lemma date_lt_trans (a b c : date) : date_lt a b -> date_lt b c -> date_lt a c.
Proof.
  destruct a as [y1 m1 d1], b as [y2 m2 d2], c as [y3 m3 d3].
  unfold date_lt, date_compare; simpl.
  destruct (Z.compare_spec y1 y2), (Z.compare_spec y2 y3); try done;
    destruct (Z.compare_spec m1 m2), (Z.compare_spec m2 m3); try done;
    destruct (Z.compare_spec d1 d2), (Z.compare_spec d2 d3); try done;
    intros _ _;
    repeat match goal with
           | |- context [?x ?= ?y] => destruct (Z.compare_spec x y); try lia
           end; done.
Qed.

Lemma minus_days_valid (n : nat) (d : date) :
  valid_date d -> valid_date (minus_days n d).
Proof. revert d. induction n; simpl; auto using prev_day_valid. Qed.

Lemma minus_days_year (n : nat) (d : date) :
  year d - Z.of_nat n <= year (minus_days n d) <= year d.
Proof.
  revert d. induction n as [|n IH]; intros d; simpl minus_days; [lia|].
  specialize (IH (prev_day d)). pose proof (prev_day_year d). lia.
Qed.

Lemma minus_days_lt (n : nat) (d : date) :
  valid_date d -> date_lt (minus_days (S n) d) d.
Proof.
  revert d. induction n as [|n IH]; intros d Hd; simpl.
  - by apply prev_day_lt.
  - eapply date_lt_trans; [apply IH; by apply prev_day_valid|by apply prev_day_lt].
Qed.

Lemma valid_date_fits (d : date) :
  valid_date d -> 0 <= year d < 10000 -> fits d.
Proof.
  destruct d as [y m dd]. unfold valid_date, fits, days_in_month; simpl.
  intros [Hm Hd] Hy. repeat case_match; lia.
Qed.

Lemma clock_date_fits (now : date) : clock_date now -> fits now.
Proof. intros [Hv Hy]. apply valid_date_fits; [done|lia]. Qed.

Lemma cutoff_fits (now : date) : clock_date now -> fits (minus_days 7 now).
Proof.
  intros [Hv Hy]. apply valid_date_fits; [by apply minus_days_valid|].
  pose proof (minus_days_year 7 now). lia.
Qed.

(** The cutoff key never sorts after today's key. *)
Lemma cutoff_le_today (now : date) :
  clock_date now ->
  String.leb (strftime_ymd (minus_days 7 now)) (strftime_ymd now) = true.
Proof.
  intros Hc. unfold String.leb.
  rewrite strftime_ymd_compare by auto using cutoff_fits, clock_date_fits.
  destruct Hc as [Hv _]. by rewrite (minus_days_lt 6 now Hv).
Qed.

(** A bucket dated more than 7 days back sorts before the cutoff key. *)
Lemma older_key_lt_cutoff (now d : date) :
  clock_date now -> fits d -> date_lt d (minus_days 7 now) ->
  String.leb (strftime_ymd (minus_days 7 now)) (strftime_ymd d) = false.
Proof.
  intros Hc Hd Hlt. unfold String.leb.
  rewrite String.compare_antisym, strftime_ymd_compare by auto using cutoff_fits.
  by rewrite Hlt.
Qed.
End CalendarFacts.

(** ** The quota ledger *)

Section UsageTrackerFacts.
Import Calendar UsageTracker.

Lemma cleanup_lookup (now : date) (data : ledger) (k : string) :
  _cleanup_old_data now data !! k
  = if String.leb (strftime_ymd (minus_days 7 now)) k then data !! k else None.
Proof.
  unfold _cleanup_old_data. cbv zeta.
  destruct (String.leb _ k) eqn:E.
  - destruct (data !! k) as [b|] eqn:Ek.
    + by apply map_lookup_filter_Some.
    + apply map_lookup_filter_None. by left.
  - apply map_lookup_filter_None. right. intros b _ H. cbn [fst] in H. rewrite E in H. done.
Qed.

Lemma cleanup_today (now : date) (data : ledger) :
  clock_date now ->
  _cleanup_old_data now data !! _get_today_key now = data !! _get_today_key now.
Proof.
  intros Hc. rewrite cleanup_lookup. unfold _get_today_key.
  by rewrite cutoff_le_today.
Qed.

Lemma identity_limit_pos (user_id : option string) : 1 <= identity_limit user_id.
Proof. unfold identity_limit. destruct (truthy user_id); vm_compute; discriminate. Qed.

(** [increment_usage], with its two branches folded on the identity key. *)
Lemma increment_usage_unfold w now user_id ip_address f :
  increment_usage w now user_id ip_address f
  = match _load_usage_data f with
    | (Returns data, f1) =>
        let data := working_copy now data in
        let today_data := default ∅ (data !! _get_today_key now) in
        let key := identity_key user_id ip_address in
        let current_usage := default 0 (today_data !! key) in
        if identity_limit user_id <=? current_usage then (Returns false, f1)
        else
          match _save_usage_data w
                  (<[_get_today_key now := <[key := current_usage + 1]> today_data]> data) f1 with
          | (_, f2) => (Returns true, f2)
          end
    | (Raises e, f1) => (Raises e, f1)
    end.
Proof.
  unfold increment_usage, identity_key, identity_limit, working_copy, bind.
  destruct (_load_usage_data f) as [[data|e] f1]; [|done].
  cbv zeta. destruct (truthy user_id).
  - destruct (_ <=? _); [done|].
    unfold _save_usage_data, try_except, json_dump, ret. by destruct w.
  - destruct (_ <=? _); [done|].
    unfold _save_usage_data, try_except, json_dump, ret. by destruct w.
Qed.

Lemma check_usage_limit_unfold now user_id ip_address f :
  check_usage_limit now user_id ip_address f
  = match _load_usage_data f with
    | (Returns data, f1) =>
        let data := _cleanup_old_data now data in
        let today_data := default ∅ (data !! _get_today_key now) in
        let current_usage :=
          default 0 (today_data !! identity_key user_id ip_address) in
        (Returns (current_usage <? identity_limit user_id, current_usage,
                  identity_limit user_id), f1)
    | (Raises e, f1) => (Raises e, f1)
    end.
Proof.
  unfold check_usage_limit, identity_key, identity_limit, bind.
  destruct (_load_usage_data f) as [[data|e] f1]; [|done].
  cbv zeta. by destruct (truthy user_id).
Qed.

Lemma load_usage_data_spec (f : usage_file) :
  _load_usage_data f
  = match f with
    | FileUnreadable => (Raises OSError, f)
    | FileJson data => (Returns data, f)
    | _ => (Returns ∅, f)
    end.
Proof. by destruct f. Qed.

Lemma working_copy_today (now : date) (data : ledger) :
  clock_date now ->
  default ∅ (working_copy now data !! _get_today_key now)
  = default ∅ (data !! _get_today_key now).
Proof.
  intros Hc. unfold working_copy. cbv zeta.
  rewrite cleanup_today by done.
  destruct (data !! _get_today_key now) eqn:E.
  - by rewrite cleanup_today, E.
  - by rewrite lookup_insert_eq.
Qed.

(** The count [increment_usage] and [check_usage_limit] read is the
    stored one. *)
Lemma stored_count_spec (f : usage_file) (k key : string) :
  stored_count f k key
  = match f with
    | FileJson data => default 0 (default ∅ (data !! k) !! key)
    | _ => 0
    end.
Proof. by destruct f. Qed.

Lemma increment_usage_refused w now user_id ip_address f :
  clock_date now ->
  identity_limit user_id
    <= stored_count f (_get_today_key now) (identity_key user_id ip_address) ->
  increment_usage w now user_id ip_address f = (Returns false, f).
Proof.
  intros Hc Hlim. pose proof (identity_limit_pos user_id) as Hpos.
  rewrite stored_count_spec in Hlim.
  destruct f as [| | |data]; try lia.
  rewrite increment_usage_unfold, load_usage_data_spec. cbv zeta.
  rewrite working_copy_today by done.
  destruct (_ <=? _) eqn:E; [done|]. apply Z.leb_gt in E. lia.
Qed.

Lemma stored_count_loaded (f : usage_file) (k key : string) :
  stored_count f k key = default 0 (default ∅ (loaded f !! k) !! key).
Proof. destruct f; try done; simpl; by rewrite lookup_empty. Qed.


Lemma load_usage_data_loaded (f : usage_file) :
  f <> FileUnreadable -> _load_usage_data f = (Returns (loaded f), f).
Proof. by destruct f. Qed.

Lemma increment_usage_accepted now user_id ip_address f :
  clock_date now -> f <> FileUnreadable ->
  stored_count f (_get_today_key now) (identity_key user_id ip_address)
    < identity_limit user_id ->
  exists data,
    increment_usage SaveOk now user_id ip_address f = (Returns true, FileJson data)
    /\ stored_count (FileJson data) (_get_today_key now)
         (identity_key user_id ip_address)
       = stored_count f (_get_today_key now) (identity_key user_id ip_address) + 1.
Proof.
  intros Hc Hf Hlim.
  rewrite increment_usage_unfold, load_usage_data_loaded by done.
  rewrite !stored_count_loaded in *. cbv zeta.
  rewrite working_copy_today by done.
  destruct (_ <=? _) eqn:E; [apply Z.leb_le in E; lia|].
  eexists. split; [reflexivity|].
  rewrite !stored_count_loaded. cbn [loaded].
  rewrite lookup_insert_eq. cbn [from_option id].
  by rewrite lookup_insert_eq.
Qed.

Lemma commit_n_accepts now user_id ip_address (n : nat) :
  clock_date now ->
  forall f,
    f <> FileUnreadable ->
    stored_count f (_get_today_key now) (identity_key user_id ip_address)
      + Z.of_nat n <= identity_limit user_id ->
    let res := commit_n n now user_id ip_address f in
    res.1 = replicate n (Returns true)
    /\ res.2 <> FileUnreadable
    /\ stored_count res.2 (_get_today_key now) (identity_key user_id ip_address)
       = stored_count f (_get_today_key now) (identity_key user_id ip_address)
         + Z.of_nat n.
Proof.
  intros Hc. induction n as [|n IH]; intros f Hf Hn; cbv zeta.
  - simpl. repeat split; [done|lia].
  - destruct (increment_usage_accepted now user_id ip_address f Hc Hf)
      as (data & Hinc & Hcnt); [lia|].
    cbn [commit_n]. rewrite Hinc.
    specialize (IH (FileJson data) ltac:(done) ltac:(lia)). cbv zeta in IH.
    destruct (commit_n n now user_id ip_address (FileJson data)) as [rs f''].
    simpl in *. destruct IH as (-> & Hf'' & Hcnt'').
    repeat split; [done|]. lia.
Qed.

Lemma reset_usage_unfold w now user_id ip_address f :
  reset_usage w now user_id ip_address f
  = match _load_usage_data f with
    | (Returns data, f1) =>
        match data !! _get_today_key now with
        | Some _ =>
            match _save_usage_data w
                    (del_entry (_get_today_key now)
                       (identity_key user_id ip_address) data) f1 with
            | (_, f2) => (Returns true, f2)
            end
        | None => (Returns true, f1)
        end
    | (Raises e, f1) => (Returns false, f1)
    end.
Proof.
  unfold reset_usage, identity_key, try_except, bind.
  destruct (_load_usage_data f) as [[data|e] f1]; [|done].
  destruct (data !! _get_today_key now); [|done].
  unfold _save_usage_data, try_except, json_dump, ret.
  by destruct (truthy user_id), w.
Qed.

Lemma del_entry_count (today_key key : string) (data : ledger) :
  default ∅ (del_entry today_key key data !! today_key) !! key = None.
Proof.
  unfold del_entry. cbv zeta.
  destruct (default ∅ (data !! today_key) !! key) eqn:E; [|done].
  rewrite lookup_insert_eq. cbn [from_option id]. apply lookup_delete_eq.
Qed.



(** What [reset_usage] leaves in the file. *)
Lemma reset_usage_file w now user_id ip_address f :
  (reset_usage w now user_id ip_address f).2
  = match f with
    | FileJson data =>
        match data !! _get_today_key now, w with
        | Some _, SaveOk =>
            FileJson (del_entry (_get_today_key now)
                        (identity_key user_id ip_address) data)
        | Some _, SaveWriteFails => FileCorrupt
        | _, _ => f
        end
    | _ => f
    end.
Proof.
  rewrite reset_usage_unfold, load_usage_data_spec.
  destruct f as [| | |data]; try done.
  by destruct (data !! _get_today_key now), w.
Qed.


Lemma check_count_zero now user_id ip_address f :
  f <> FileUnreadable ->
  default ∅ (loaded f !! _get_today_key now)
    !! identity_key user_id ip_address = None ->
  check_usage_limit now user_id ip_address f
  = (Returns (true, 0, identity_limit user_id), f).
Proof.
  intros Hf Hnone. pose proof (identity_limit_pos user_id) as Hpos.
  rewrite check_usage_limit_unfold, load_usage_data_loaded by done.
  cbv zeta. rewrite cleanup_lookup.
  destruct (String.leb _ _).
  - rewrite Hnone. cbn [from_option id].
    destruct (0 <? identity_limit user_id) eqn:E; [done|].
    apply Z.ltb_ge in E. lia.
  - cbn [from_option id]. rewrite lookup_empty. cbn [from_option id].
    destruct (0 <? identity_limit user_id) eqn:E; [done|].
    apply Z.ltb_ge in E. lia.
Qed.

Lemma reset_usage_clears now user_id ip_address f :
  f <> FileUnreadable ->
  let f' := (reset_usage SaveOk now user_id ip_address f).2 in
  check_usage_limit now user_id ip_address f'
  = (Returns (true, 0, identity_limit user_id), f').
Proof.
  intros Hf. cbv zeta. rewrite reset_usage_file.
  destruct f as [| | |data]; try done.
  - apply check_count_zero; [done|]. simpl. by rewrite lookup_empty.
  - apply check_count_zero; [done|]. simpl. by rewrite lookup_empty.
  - destruct (data !! _get_today_key now) as [b|] eqn:E.
    + apply check_count_zero; [done|]. cbn [loaded]. apply del_entry_count.
    + apply check_count_zero; [done|]. cbn [loaded]. by rewrite E.
Qed.

Lemma check_usage_limit_pure now user_id ip_address f :
  (check_usage_limit now user_id ip_address f).2 = f.
Proof. rewrite check_usage_limit_unfold, load_usage_data_spec. by destruct f. Qed.

Lemma increment_usage_false_pure w now user_id ip_address f f' :
  increment_usage w now user_id ip_address f = (Returns false, f') -> f' = f.
Proof.
  rewrite increment_usage_unfold, load_usage_data_spec.
  destruct f as [| | |data]; cbv zeta; try done;
    destruct (_ <=? _); try (intros [= <-]; done);
    destruct (_save_usage_data _ _ _); discriminate.
Qed.

Lemma working_copy_keys now (data : ledger) (k : string) :
  clock_date now ->
  is_Some (working_copy now data !! k) ->
  String.leb (strftime_ymd (minus_days 7 now)) k = true.
Proof.
  intros Hc. unfold working_copy. cbv zeta.
  assert (Hclean : is_Some (_cleanup_old_data now data !! k) ->
                   String.leb (strftime_ymd (minus_days 7 now)) k = true).
  { rewrite cleanup_lookup. destruct (String.leb _ k); [done|]. by intros [? ?]. }
  destruct (_cleanup_old_data now data !! _get_today_key now); [done|].
  destruct (decide (k = _get_today_key now)) as [->|Hne].
  - intros _. by apply cutoff_le_today.
  - by rewrite lookup_insert_ne.
Qed.

Lemma increment_usage_evicts now user_id ip_address f f' (k : string) :
  clock_date now ->
  increment_usage SaveOk now user_id ip_address f = (Returns true, f') ->
  is_Some (stored_bucket f' k) ->
  String.leb (strftime_ymd (minus_days 7 now)) k = true.
Proof.
  intros Hc. rewrite increment_usage_unfold.
  destruct (_load_usage_data f) as [[data|e] f1]; [|done].
  cbv zeta. destruct (_ <=? _); [done|].
  unfold _save_usage_data, try_except, json_dump, ret.
  intros [= <-]. unfold stored_bucket. cbn [stored_ledger].
  destruct (decide (k = _get_today_key now)) as [->|Hne].
  - intros _. by apply cutoff_le_today.
  - rewrite lookup_insert_ne by done. by apply working_copy_keys.
Qed.
End UsageTrackerFacts.

(** ** The durable append store *)

Section PersistentStorageFacts.
Import PersistentStorage.

Lemma append_ne_self (p s : string) : s <> "" -> p +:+ s <> p.
Proof.
  intros Hs Heq. apply (f_equal String.length) in Heq.
  rewrite length_app in Heq. destruct s; [done|]. simpl in Heq. lia.
Qed.

Lemma append_inj (p s t : string) : p +:+ s = p +:+ t -> s = t.
Proof. induction p as [|c p IH]; simpl; [done|]. intros [= H]. auto. Qed.

Lemma tmp_ne_target (p : string) : p +:+ ".tmp" <> p.
Proof. by apply append_ne_self. Qed.

Lemma backup_ne_target (p : string) : p +:+ ".backup" <> p.
Proof. by apply append_ne_self. Qed.

Lemma tmp_ne_backup (p : string) : p +:+ ".tmp" <> p +:+ ".backup".
Proof. intros H. apply append_inj in H. discriminate. Qed.

(** What [_read_json_safe] returns, by the state of the two files. *)
Lemma read_json_safe_spec (p : string) (d : value) (s : fs) :
  _read_json_safe p d s
  = (Returns match s !! p with
             | Some (FJson v) => v
             | Some FBad =>
                 match s !! (p +:+ ".backup") with
                 | Some (FJson v) => v
                 | _ => or_empty_list d
                 end
             | None => or_empty_list d
             end, s).
Proof.
  unfold _read_json_safe, try_except, bind, path_exists, json_load, ret.
  destruct (s !! p) as [[v|]|] eqn:Ep; cbn; rewrite ?Ep; try done.
  destruct (s !! (p +:+ ".backup")) as [[v|]|] eqn:Eb; cbn; rewrite ?Eb; done.
Qed.

Lemma path_exists_spec (p : string) (s : fs) :
  path_exists p s = (Returns (bool_decide (is_Some (s !! p))), s).
Proof. done. Qed.

Lemma exists_true (p : string) (s : fs) (c : file) :
  s !! p = Some c -> bool_decide (is_Some (s !! p)) = true.
Proof. intros ->. by apply bool_decide_eq_true. Qed.

Lemma exists_false (p : string) (s : fs) :
  s !! p = None -> bool_decide (is_Some (s !! p)) = false.
Proof. intros ->. apply bool_decide_eq_false. by intros [? ?]. Qed.

Lemma is_Some_Some (c : file) : bool_decide (is_Some (Some c)) = true.
Proof. by apply bool_decide_eq_true. Qed.

Lemma is_Some_None : bool_decide (is_Some (@None file)) = false.
Proof. apply bool_decide_eq_false. by intros [? ?]. Qed.

Ltac fs_simpl :=
  repeat first
    [ rewrite lookup_insert_eq
    | rewrite lookup_delete_eq
    | rewrite lookup_insert_ne by done
    | rewrite lookup_delete_ne by done
    | rewrite is_Some_Some
    | rewrite is_Some_None
    | progress cbv beta iota ].

(** The state [_write_json_atomic] leaves when it raises. *)
Lemma write_json_atomic_raises (w : write_fault) (p : string) (data : value)
    (s s' : fs) (e : exn) :
  _write_json_atomic w p data s = (Raises e, s') ->
  s' !! (p +:+ ".tmp") = None
  /\ (forall q, q <> p -> q <> p +:+ ".tmp" -> q <> p +:+ ".backup" ->
                s' !! q = s !! q)
  /\ match w, s !! p with
     | ReplaceFails, Some c => s' !! p = None /\ s' !! (p +:+ ".backup") = Some c
     | _, _ => s' !! p = s !! p
               /\ s' !! (p +:+ ".backup") = s !! (p +:+ ".backup")
     end.
Proof.
  pose proof (tmp_ne_target p) as Ht.
  pose proof (backup_ne_target p) as Hb.
  pose proof (tmp_ne_backup p) as Htb.
  unfold _write_json_atomic, try_except, bind, json_dump, os_replace,
    os_remove, path_exists, ret, raise.
  destruct w; cbn [backup_fails replace_fails]; cbv beta zeta iota;
    destruct (s !! p) as [c|] eqn:Ep;
    destruct (s !! (p +:+ ".tmp")) as [c'|] eqn:Etmp;
    repeat (progress (fs_simpl; rewrite ?Ep, ?Etmp)); try discriminate;
    intros [= <- <-]; repeat (progress (fs_simpl; rewrite ?Ep, ?Etmp));
    (split; [done|]); (split; [|done]);
    intros q Hq1 Hq2 Hq3; by fs_simpl.
Qed.

(** A fault at a step that runs makes the write raise. *)
Lemma write_json_atomic_fault (w : write_fault) (p : string) (data : value)
    (s : fs) :
  w = OpenFails \/ w = DumpFails \/ w = ReplaceFails
  \/ (w = BackupFails /\ is_Some (s !! p)) ->
  exists s', _write_json_atomic w p data s = (Raises OSError, s').
Proof.
  pose proof (tmp_ne_target p) as Ht.
  pose proof (backup_ne_target p) as Hb.
  pose proof (tmp_ne_backup p) as Htb.
  unfold _write_json_atomic, try_except, bind, json_dump, os_replace,
    os_remove, path_exists, ret, raise.
  intros [-> | [-> | [-> | [-> [c Hc]]]]];
    cbn [backup_fails replace_fails]; cbv beta zeta iota;
    destruct (s !! p) as [c0|] eqn:Ep;
    destruct (s !! (p +:+ ".tmp")) as [c'|] eqn:Etmp;
    repeat (progress (fs_simpl; rewrite ?Ep, ?Etmp)); try done; by eexists.
Qed.

(** Without a fault the write returns, the target holds the new data and
    the former target, if any, is the [.backup]. *)
Lemma write_json_atomic_ok (p : string) (data : value) (s : fs) :
  exists s',
    _write_json_atomic NoFault p data s = (Returns tt, s')
    /\ s' !! p = Some (FJson data)
    /\ s' !! (p +:+ ".tmp") = None
    /\ s' !! (p +:+ ".backup")
       = match s !! p with
         | Some c => Some c
         | None => s !! (p +:+ ".backup")
         end.
Proof.
  pose proof (tmp_ne_target p) as Ht.
  pose proof (backup_ne_target p) as Hb.
  pose proof (tmp_ne_backup p) as Htb.
  unfold _write_json_atomic, try_except, bind, json_dump, os_replace,
    os_remove, path_exists, ret, raise.
  cbn [backup_fails replace_fails]; cbv beta zeta iota.
  destruct (s !! p) as [c0|] eqn:Ep;
    repeat (progress (fs_simpl; rewrite ?Ep));
    eexists; (split; [reflexivity|]);
    repeat (progress (fs_simpl; rewrite ?Ep)); done.
Qed.

(** The state after a write stopped between its steps 2 and 3. *)
Lemma write_interrupted_spec (p : string) (old new : value) (s : fs) :
  s !! p = Some (FJson old) ->
  let s1 := (write_interrupted p new s).2 in
  s1 !! p = None /\ s1 !! (p +:+ ".backup") = Some (FJson old).
Proof.
  pose proof (tmp_ne_target p) as Ht.
  pose proof (backup_ne_target p) as Hb.
  intros Ep. cbv zeta.
  unfold write_interrupted, bind, json_dump, os_replace, path_exists, ret.
  cbv beta zeta iota.
  repeat (progress (fs_simpl; rewrite ?Ep)). cbn [snd].
  by fs_simpl.
Qed.

Lemma eq_str_true (v : value) (s : string) : eq_str v s = true -> v = VStr s.
Proof.
  destruct v; try done. simpl. intros H. by apply String.eqb_eq in H as ->.
Qed.

Lemma get_default_str (o : option value) (s : string) :
  eq_str (default VNull o) s = true -> o = Some (VStr s).
Proof.
  destruct o as [v|]; simpl; [|done]. intros H. by apply eq_str_true in H as ->.
Qed.

(** One turn of the loop on an item that is not a dict. *)
Lemma favorite_loop_not_dict w image_id user_id is_favorite seen img rest s :
  (forall fields, img <> VDict fields) ->
  favorite_loop w image_id user_id is_favorite seen (img :: rest) s
  = (Raises AttributeError, s).
Proof.
  intros Hnd. cbn [favorite_loop]. unfold bind, py_get.
  destruct img; try done. by destruct (Hnd fields).
Qed.

(** One turn of the loop on a dict that does not match. *)
Lemma favorite_loop_skip w image_id user_id is_favorite seen fields rest s :
  ~ matches image_id user_id (VDict fields) ->
  favorite_loop w image_id user_id is_favorite seen (VDict fields :: rest) s
  = favorite_loop w image_id user_id is_favorite (seen ++ [VDict fields]) rest s.
Proof.
  intros Hno. cbn [favorite_loop]. unfold bind, py_get, ret. cbv beta iota.
  destruct (eq_str (default VNull (assoc_get "id" fields)) image_id) eqn:Eid;
    cbv beta iota; [|done].
  destruct (eq_str (default VNull (assoc_get "user_id" fields)) user_id) eqn:Eo;
    [|done].
  exfalso. apply Hno. split; simpl; by apply get_default_str.
Qed.

(** With no matching record the loop ends without writing, by returning
    [False] or by raising on an item that is not a dict. *)
Lemma favorite_loop_no_match w image_id user_id is_favorite rest :
  (forall r, r ∈ rest -> ~ matches image_id user_id r) ->
  forall seen s,
    favorite_loop w image_id user_id is_favorite seen rest s = (Returns false, s)
    \/ exists e,
        favorite_loop w image_id user_id is_favorite seen rest s = (Raises e, s).
Proof.
  induction rest as [|img rest IH]; intros Hno seen s; [by left|].
  assert (Hrest : forall r, r ∈ rest -> ~ matches image_id user_id r).
  { intros r Hr. apply Hno. by right. }
  assert (Himg : ~ matches image_id user_id img) by (apply Hno; by left).
  destruct img as [| | | | |fields];
    try (right; exists AttributeError; by apply favorite_loop_not_dict).
  rewrite favorite_loop_skip by done. by apply IH.
Qed.

Lemma update_image_favorite_no_match w image_id user_id is_favorite (s : fs) :
  (forall images r,
      (_read_json_safe images_file (VList []) s).1 = Returns (VList images) ->
      r ∈ images -> ~ matches image_id user_id r) ->
  update_image_favorite w image_id user_id is_favorite s = (Returns false, s).
Proof.
  intros Hno. unfold update_image_favorite, try_except, bind.
  rewrite read_json_safe_spec in *. cbn [fst] in Hno.
  set (stored := match s !! images_file with
                 | Some (FJson v) => v
                 | Some FBad => _
                 | None => _
                 end) in *.
  destruct stored as [| | |str|images|fields] eqn:Es;
    unfold py_iter, raise, ret; cbv beta iota; try done.
  - (* a string: its characters have no [get] *)
    destruct str as [|c str]; [done|]. by cbn.
  - destruct (favorite_loop_no_match w image_id user_id is_favorite images
                (fun r Hr => Hno images r eq_refl Hr) [] s) as [-> | [e ->]]; done.
  - (* a dict: its keys are strings *)
    destruct fields as [|[k v] fields]; [done|]. by cbn.
Qed.
End PersistentStorageFacts.

(** * The claims *)

(** ** Claims on the quota ledger *)

Section QuotaLedgerClaims.
Import Calendar UsageTracker Interleaving.

Example strftime_ymd_ex : strftime_ymd (mkdate 2024 3 1) = "2024-03-01".
Proof. reflexivity. Qed.

Example cutoff_key_ex :
  strftime_ymd (minus_days 7 (mkdate 2024 3 1)) = "2024-02-23".
Proof. reflexivity. Qed.

Lemma clock_date_2024_03_01 : clock_date (mkdate 2024 3 1).
Proof. repeat split; vm_compute; discriminate. Qed.

(** The end-to-end scenario of the repository's own test: an anonymous
    address may generate once a day. *)
Example anonymous_scenario :
  let now := mkdate 2024 3 1 in
  let ip := Some "203.0.113.5" in
  let f1 := (increment_usage SaveOk now None ip (FileJson ∅)).2 in
  (check_usage_limit now None ip (FileJson ∅)).1 = Returns (true, 0, 1)
  /\ (increment_usage SaveOk now None ip (FileJson ∅)).1 = Returns true
  /\ (check_usage_limit now None ip f1).1 = Returns (false, 1, 1)
  /\ increment_usage SaveOk now None ip f1 = (Returns false, f1).
Proof. vm_compute. repeat split; reflexivity. Qed.

(** C2: for every identity and every ledger in which the identity's count
    for the current UTC day has reached its limit (5 authenticated, 1
    anonymous), [increment_usage] returns [False] and leaves the usage file
    as it was, whatever the environment would do to a write; in particular,
    from a day with no usage for the identity, [limit] commits in a row
    return [True], the stored count is then [limit], and the next commit
    returns [False] without changing the file. *)
Theorem commit_refused_at_limit (now : date) (user_id ip_address : option string) :
  clock_date now ->
  let today := _get_today_key now in
  let key := identity_key user_id ip_address in
  let limit := identity_limit user_id in
  (forall w f,
      limit <= stored_count f today key ->
      increment_usage w now user_id ip_address f = (Returns false, f))
  /\ (forall f,
        f <> FileUnreadable ->
        stored_count f today key = 0 ->
        let run := commit_n (Z.to_nat limit) now user_id ip_address f in
        run.1 = replicate (Z.to_nat limit) (Returns true)
        /\ stored_count run.2 today key = limit
        /\ forall w, increment_usage w now user_id ip_address run.2
                     = (Returns false, run.2)).
Proof.
  intros Hc today key limit. split.
  - intros w f Hlim. by apply increment_usage_refused.
  - intros f Hf H0 run.
    pose proof (identity_limit_pos user_id) as Hpos.
    destruct (commit_n_accepts now user_id ip_address (Z.to_nat limit) Hc f Hf)
      as (Hres & Hf' & Hcnt).
    { fold today key limit. lia. }
    fold run today key in Hres, Hf', Hcnt.
    assert (Hlim : stored_count run.2 today key = limit) by lia.
    repeat split; [done|done|].
    intros w. apply increment_usage_refused; [done|]. fold today key limit. lia.
Qed.

Lemma commit_refused_at_limit_witness :
  clock_date (mkdate 2024 3 1)
  /\ increment_usage SaveOk (mkdate 2024 3 1) None (Some "203.0.113.5")
       (FileJson {[ "2024-03-01" := {[ "ip:203.0.113.5" := 1 ]} ]})
     = (Returns false, FileJson {[ "2024-03-01" := {[ "ip:203.0.113.5" := 1 ]} ]})
  /\ (commit_n 5 (mkdate 2024 3 1) (Some "u1") None (FileJson ∅)).1
     = replicate 5 (Returns true).
Proof.
  split; [exact clock_date_2024_03_01|]. split.
  - refine (proj1 (commit_refused_at_limit (mkdate 2024 3 1) None
                     (Some "203.0.113.5") clock_date_2024_03_01) SaveOk _ _).
    vm_compute. discriminate.
  - refine (proj1 (proj2 (commit_refused_at_limit (mkdate 2024 3 1) (Some "u1")
                            None clock_date_2024_03_01) (FileJson ∅) _ _)).
    + discriminate.
    + reflexivity.
Defined.

(** Running the two file accesses of a thread back to back is
    [increment_usage]: the interleaving model adds schedules, it does not
    change the method. *)
Lemma step_thread_sequential now user_id ip_address f :
  (let (t, f1) := step_thread now (Ready user_id ip_address) f in
   step_thread now t f1)
  = (let (r, f') := increment_usage SaveOk now user_id ip_address f in
     (Finished r, f')).
Proof.
  unfold step_thread, increment_begin, increment_end, increment_usage, bind.
  destruct (_load_usage_data f) as [[data|e] f1]; [|done].
  cbv zeta. destruct (truthy user_id); by destruct (_ <=? _).
Qed.

(** C3: two concurrent [increment_usage] calls for one anonymous address
    (limit 1) on an empty ledger.  Under the schedule load, load, save, save
    both calls return [True] while the stored count ends at 1: two
    successful commits, where the claim allows min(2, 1) = 1.  The
    serialized schedule gives one success. *)
Theorem concurrent_commits_exceed_limit :
  let now := mkdate 2024 3 1 in
  let ip := Some "203.0.113.5" in
  let threads := [Ready None ip; Ready None ip] in
  identity_limit None = 1
  /\ run now [0; 1; 0; 1]%nat (FileJson ∅) threads
     = (FileJson {[ "2024-03-01" := {[ "ip:203.0.113.5" := 1 ]} ]},
        [Finished (Returns true); Finished (Returns true)])
  /\ successes (run now [0; 1; 0; 1]%nat (FileJson ∅) threads).2 = 2%nat
  /\ successes (run now [0; 0; 1; 1]%nat (FileJson ∅) threads).2 = 1%nat.
Proof. vm_compute. repeat split; reflexivity. Qed.

(** C6, as stated, fails: a check on a ledger that holds a bucket dated two
    months back leaves that bucket in the stored data. *)
Lemma check_keeps_old_buckets :
  let now := mkdate 2024 3 1 in
  let old := mkdate 2024 1 1 in
  let f := FileJson {[ "2024-01-01" := {[ "ip:203.0.113.5" := 1 ]} ]} in
  ~ (date_lt old (minus_days 7 now) ->
     stored_bucket (check_usage_limit now None (Some "203.0.113.5") f).2
       (strftime_ymd old) = None).
Proof.
  cbv zeta. intros H.
  assert (Hold : date_lt (mkdate 2024 1 1) (minus_days 7 (mkdate 2024 3 1)))
    by reflexivity.
  specialize (H Hold). vm_compute in H. discriminate.
Qed.

(** C6, amended: check and commit evict the buckets older than 7 days only
    from the dictionary they loaded.  A check never writes the usage file
    and neither does a refused commit; the eviction reaches the stored data
    when a commit is accepted and its save succeeds, and after such a commit
    the stored data holds no bucket whose key is the date key of a date more
    than 7 days before the current UTC date. *)
Theorem eviction_persists_only_on_commit (now : date)
    (user_id ip_address : option string) (f : usage_file) :
  clock_date now ->
  (check_usage_limit now user_id ip_address f).2 = f
  /\ (forall w f',
        increment_usage w now user_id ip_address f = (Returns false, f') -> f' = f)
  /\ (forall f' d,
        increment_usage SaveOk now user_id ip_address f = (Returns true, f') ->
        fits d -> date_lt d (minus_days 7 now) ->
        stored_bucket f' (strftime_ymd d) = None).
Proof.
  intros Hc. split; [apply check_usage_limit_pure|]. split.
  - intros w f'. apply increment_usage_false_pure.
  - intros f' d Hinc Hd Hlt.
    destruct (stored_bucket f' (strftime_ymd d)) as [b|] eqn:E; [|done].
    pose proof (increment_usage_evicts now user_id ip_address f f'
                  (strftime_ymd d) Hc Hinc) as Hk.
    rewrite E in Hk. specialize (Hk ltac:(by eexists)).
    by rewrite older_key_lt_cutoff in Hk.
Qed.

Lemma eviction_persists_only_on_commit_witness :
  clock_date (mkdate 2024 3 1)
  /\ stored_bucket
       (increment_usage SaveOk (mkdate 2024 3 1) None (Some "203.0.113.5")
          (FileJson {[ "2024-01-01" := {[ "ip:203.0.113.5" := 1 ]} ]})).2
       (strftime_ymd (mkdate 2024 1 1)) = None.
Proof.
  split; [exact clock_date_2024_03_01|].
  eapply (proj2 (proj2 (eviction_persists_only_on_commit (mkdate 2024 3 1) None
                          (Some "203.0.113.5")
                          (FileJson {[ "2024-01-01" := {[ "ip:203.0.113.5" := 1 ]} ]})
                          clock_date_2024_03_01))).
  - vm_compute. reflexivity.
  - vm_compute. repeat split; discriminate.
  - reflexivity.
Defined.

(** C8, as stated, fails: on a file that exists but cannot be opened
    ([PermissionError], an [OSError] that [_load_usage_data] does not
    catch) a check raises instead of reporting zero usage. *)
Lemma check_raises_on_unreadable_file :
  (check_usage_limit (mkdate 2024 3 1) None (Some "203.0.113.5")
     FileUnreadable).1 = Raises OSError
  /\ ~ (exists limit,
          (check_usage_limit (mkdate 2024 3 1) None (Some "203.0.113.5")
             FileUnreadable).1 = Returns (true, 0, limit)).
Proof.
  split; [reflexivity|]. intros [limit H]. vm_compute in H. discriminate.
Qed.

(** C8, amended: for every identity, when the usage file is absent or its
    text is rejected by [json.load] with [JSONDecodeError], a check treats
    the ledger as empty: it returns allowed = true, current usage 0 and the
    identity's limit, without raising and without touching the file.  When
    [open] raises another [OSError] (permission denied), the check raises
    that error, for every identity, and leaves the file as it is. *)
Theorem check_fails_open_on_absent_or_corrupt (now : date)
    (user_id ip_address : option string) (f : usage_file) :
  (f = FileAbsent \/ f = FileCorrupt ->
   check_usage_limit now user_id ip_address f
   = (Returns (true, 0, identity_limit user_id), f))
  /\ (f = FileUnreadable ->
      check_usage_limit now user_id ip_address f = (Raises OSError, f)).
Proof.
  split.
  - intros Hf. apply check_count_zero.
    + by destruct Hf as [-> | ->].
    + destruct Hf as [-> | ->]; simpl; by rewrite lookup_empty.
  - intros ->. by rewrite check_usage_limit_unfold, load_usage_data_spec.
Qed.

Lemma check_fails_open_on_absent_or_corrupt_witness :
  check_usage_limit (mkdate 2024 3 1) None (Some "203.0.113.5") FileCorrupt
  = (Returns (true, 0, 1), FileCorrupt)
  /\ check_usage_limit (mkdate 2024 3 1) (Some "u1") None FileUnreadable
     = (Raises OSError, FileUnreadable).
Proof.
  split.
  - apply (proj1 (check_fails_open_on_absent_or_corrupt (mkdate 2024 3 1) None
                    (Some "203.0.113.5") FileCorrupt)).
    right. reflexivity.
  - apply (proj2 (check_fails_open_on_absent_or_corrupt (mkdate 2024 3 1)
                    (Some "u1") None FileUnreadable)).
    reflexivity.
Defined.




(** C10, as stated, fails: when the write fails after [open(..., 'w')] has
    truncated the file (disk full), the commit is acknowledged and the next
    load does not find the prior count (3) but an empty ledger (0). *)
Lemma failed_write_loses_prior_count :
  let now := mkdate 2024 3 1 in
  let f := FileJson {[ "2024-03-01" := {[ "user:u1" := 3 ]} ]} in
  let r := increment_usage SaveWriteFails now (Some "u1") None f in
  r.1 = Returns true
  /\ (check_usage_limit now (Some "u1") None f).1 = Returns (true, 3, 5)
  /\ (check_usage_limit now (Some "u1") None r.2).1 = Returns (true, 0, 5)
  /\ (check_usage_limit now (Some "u1") None r.2).1
     <> (check_usage_limit now (Some "u1") None f).1.
Proof. vm_compute. repeat split; try reflexivity. discriminate. Qed.

(** C10, amended: when the save of an accepted commit fails,
    [_save_usage_data] swallows the exception and [increment_usage] still
    returns [True] although the increment is not recorded.  If the file
    could not be opened for writing it is left as it was, so the prior
    count is found again; if the write failed after the file was opened,
    the file no longer parses and the next check finds an empty ledger
    (current usage 0). *)
Theorem increment_usage_acknowledges_failed_save (w : save_fault) (now : date)
    (user_id ip_address : option string) (f : usage_file) :
  clock_date now -> f <> FileUnreadable -> w <> SaveOk ->
  stored_count f (_get_today_key now) (identity_key user_id ip_address)
    < identity_limit user_id ->
  let r := increment_usage w now user_id ip_address f in
  r.1 = Returns true
  /\ match w with
     | SaveOpenFails => r.2 = f
     | _ => r.2 = FileCorrupt
            /\ check_usage_limit now user_id ip_address r.2
               = (Returns (true, 0, identity_limit user_id), r.2)
     end.
Proof.
  intros Hc Hf Hw Hlim. cbv zeta.
  rewrite increment_usage_unfold, load_usage_data_loaded by done.
  rewrite stored_count_loaded in Hlim. cbv zeta.
  rewrite working_copy_today by done.
  destruct (_ <=? _) eqn:E; [apply Z.leb_le in E; lia|].
  destruct w; [done| |];
    unfold _save_usage_data, try_except, json_dump, ret; cbn [fst snd].
  - done.
  - repeat split. apply check_count_zero; [done|]. simpl. by rewrite lookup_empty.
Qed.

Lemma increment_usage_acknowledges_failed_save_witness :
  (increment_usage SaveOpenFails (mkdate 2024 3 1) (Some "u1") None
     (FileJson {[ "2024-03-01" := {[ "user:u1" := 3 ]} ]})).1
  = Returns true.
Proof.
  refine (proj1 (increment_usage_acknowledges_failed_save SaveOpenFails
                   (mkdate 2024 3 1) (Some "u1") None
                   (FileJson {[ "2024-03-01" := {[ "user:u1" := 3 ]} ]}) _ _ _ _)).
  - exact clock_date_2024_03_01.
  - discriminate.
  - discriminate.
  - vm_compute. reflexivity.
Defined.

End QuotaLedgerClaims.

(** ** Claims on the durable append store *)

Section DurableStoreClaims.
Import PersistentStorage.

(** A target that does not parse is recovered from its [.backup]. *)
Example read_recovers_from_backup :
  let s : fs := {[ images_file := FBad;
                   images_file +:+ ".backup" := FJson (VList [VStr "kept"]) ]} in
  (_read_json_safe images_file (VList []) s).1 = Returns (VList [VStr "kept"]).
Proof. vm_compute. reflexivity. Qed.

(** The owner's call sets the flag and rotates the former file to
    [.backup]. *)
Example favorite_by_owner :
  let r := VDict [("id", VStr "a"); ("user_id", VStr "u1");
                  ("is_favorite", VBool false)] in
  let r' := VDict [("id", VStr "a"); ("user_id", VStr "u1");
                   ("is_favorite", VBool true)] in
  let s : fs := {[ images_file := FJson (VList [r]) ]} in
  let res := update_image_favorite NoFault "a" "u1" true s in
  res.1 = Returns true
  /\ res.2 !! images_file = Some (FJson (VList [r']))
  /\ res.2 !! (images_file +:+ ".backup") = Some (FJson (VList [r])).
Proof. vm_compute. repeat split; reflexivity. Qed.

(** A write that completes is what the next read returns. *)
Lemma read_after_write (p : string) (data d : value) (s : fs) :
  exists s',
    _write_json_atomic NoFault p data s = (Returns tt, s')
    /\ _read_json_safe p d s' = (Returns data, s').
Proof.
  destruct (write_json_atomic_ok p data s) as (s' & Hw & Hp & _).
  exists s'. split; [done|]. by rewrite read_json_safe_spec, Hp.
Qed.

(** C1: a write of the collection at [p] stops after its step 2, the
    target renamed to [.backup], the temporary file not yet renamed.  The
    target is then absent and the [.backup] holds the pre-write collection,
    yet [_read_json_safe] returns the empty default, not the [.backup]: the
    recovery code sits in the [except] branch, which absence never enters. *)
Theorem read_after_interrupted_write_is_empty (p : string) (old new d : value)
    (s : fs) :
  s !! p = Some (FJson old) ->
  let s1 := (write_interrupted p new s).2 in
  s1 !! p = None
  /\ s1 !! (p +:+ ".backup") = Some (FJson old)
  /\ _read_json_safe p d s1 = (Returns (or_empty_list d), s1).
Proof.
  intros Ep. cbv zeta.
  destruct (write_interrupted_spec p old new s Ep) as [Hp Hb].
  repeat split; [done|done|].
  by rewrite read_json_safe_spec, Hp.
Qed.

Lemma read_after_interrupted_write_is_empty_witness :
  let record := VDict [("id", VStr "a"); ("user_id", VStr "u1")] in
  let s : fs := {[ images_file := FJson (VList [record]) ]} in
  s !! images_file = Some (FJson (VList [record]))
  /\ (_read_json_safe images_file (VList [])
        (write_interrupted images_file (VList [record; record]) s).2).1
     = Returns (VList []).
Proof.
  intros record s.
  assert (Hs : s !! images_file = Some (FJson (VList [record])))
    by (vm_compute; reflexivity).
  split; [exact Hs|].
  destruct (read_after_interrupted_write_is_empty images_file (VList [record])
              (VList [record; record]) (VList []) s Hs) as (_ & _ & H).
  rewrite H. reflexivity.
Defined.




(** The sibling method: [save_image] re-raises a failed write. *)
Lemma save_image_propagates_write_failure (w wi wg : write_fault)
    (refused : string -> bool) (timestamp : string) (image_metadata : value)
    (s : fs) :
  w = OpenFails \/ w = DumpFails \/ w = ReplaceFails ->
  exists e s',
    save_image w wi wg refused timestamp image_metadata s = (Raises e, s').
Proof.
  intros Hw. unfold save_image, try_except, bind.
  rewrite read_json_safe_spec.
  set (stored := match s !! images_file with
                 | Some (FJson v) => v
                 | Some FBad => _
                 | None => _
                 end).
  destruct stored as [| | | |images|]; try (by do 2 eexists).
  unfold py_append, ret at 1. cbv beta iota.
  destruct (write_json_atomic_fault w images_file (VList (images ++ [image_metadata])) s)
    as [s' ->]; [tauto|].
  by do 2 eexists.
Qed.

(** C5: [save_generation_record] with a failing atomic write (the open or
    the dump of the temporary file, or the final rename) returns normally:
    its [except] branch logs and does not re-raise; the generations file
    holds what it held, or nothing, never the new record. *)
Theorem save_generation_record_swallows_write_failure (w : write_fault)
    (t_id t_stamp user_id image_id : string) (params : value) (s : fs) :
  w = OpenFails \/ w = DumpFails \/ w = ReplaceFails ->
  exists s',
    save_generation_record w t_id t_stamp user_id image_id params s
    = (Returns tt, s')
    /\ (s' !! generations_file = s !! generations_file
        \/ s' !! generations_file = None).
Proof.
  intros Hw. unfold save_generation_record, try_except, bind.
  rewrite read_json_safe_spec.
  set (stored := match s !! generations_file with
                 | Some (FJson v) => v
                 | Some FBad => _
                 | None => _
                 end).
  set (record := VDict _).
  destruct stored as [| | | |gens|]; try (eexists; split; [reflexivity|by left]).
  unfold py_append, ret at 1. cbv beta iota.
  destruct (write_json_atomic_fault w generations_file (VList (gens ++ [record])) s)
    as [s' Hraise]; [tauto|].
  rewrite Hraise. exists s'. split; [done|].
  destruct (write_json_atomic_raises _ _ _ _ _ _ Hraise) as (_ & _ & Hm).
  destruct w, (s !! generations_file); intuition.
Qed.

Lemma save_generation_record_swallows_write_failure_witness :
  (save_generation_record DumpFails "2024-03-01T00:00:00" "2024-03-01T00:00:00"
     "u1" "img1" (VDict []) ({[ generations_file := FJson (VList []) ]} : fs)).1
  = Returns tt.
Proof.
  destruct (save_generation_record_swallows_write_failure DumpFails
              "2024-03-01T00:00:00" "2024-03-01T00:00:00" "u1" "img1" (VDict [])
              ({[ generations_file := FJson (VList []) ]} : fs))
    as (s' & H & _); [by right; left|].
  rewrite H. reflexivity.
Defined.

(** C7: the stored collection holds a record [r] whose id is [image_id],
    no other stored record has that id, and [user_id] is not the owner of
    [r].  Then [update_image_favorite image_id user_id] returns [False] and
    leaves the file system (so [r], its [is_favorite], and the rest of the
    collection) as it was; an id that no stored record has is answered the
    same way. *)
Theorem favorite_by_non_owner_refused (w : write_fault) (s : fs)
    (images : list value) (r : value) (image_id user_id : string)
    (is_favorite : bool) :
  (_read_json_safe images_file (VList []) s).1 = Returns (VList images) ->
  r ∈ images ->
  record_id r = Some (VStr image_id) ->
  (forall r', r' ∈ images -> record_id r' = Some (VStr image_id) -> r' = r) ->
  record_owner r <> Some (VStr user_id) ->
  update_image_favorite w image_id user_id is_favorite s = (Returns false, s)
  /\ forall absent_id,
      (forall r', r' ∈ images -> record_id r' <> Some (VStr absent_id)) ->
      update_image_favorite w absent_id user_id is_favorite s = (Returns false, s).
Proof.
  intros Hread Hr Hid Huniq Howner. split.
  - apply update_image_favorite_no_match.
    intros images' r' Hread' Hr' [Hid' Howner'].
    rewrite Hread in Hread'. injection Hread' as <-.
    rewrite (Huniq r' Hr' Hid') in Howner'. done.
  - intros absent_id Habsent. apply update_image_favorite_no_match.
    intros images' r' Hread' Hr' [Hid' _].
    rewrite Hread in Hread'. injection Hread' as <-.
    by apply (Habsent r' Hr').
Qed.

Lemma favorite_by_non_owner_refused_witness :
  let r1 := VDict [("id", VStr "a"); ("user_id", VStr "u1");
                   ("is_favorite", VBool false)] in
  let r2 := VDict [("id", VStr "b"); ("user_id", VStr "u2");
                   ("is_favorite", VBool false)] in
  let s : fs := {[ images_file := FJson (VList [r1; r2]) ]} in
  update_image_favorite NoFault "a" "u2" true s = (Returns false, s).
Proof.
  intros r1 r2 s.
  refine (proj1 (favorite_by_non_owner_refused NoFault s [r1; r2] r1 "a" "u2"
                   true _ _ _ _ _)).
  - vm_compute. reflexivity.
  - by left.
  - reflexivity.
  - intros r' Hr' Hid'.
    apply list_elem_of_In in Hr'. destruct Hr' as [<- | [<- | []]]; [done|].
    vm_compute in Hid'. discriminate.
  - vm_compute. discriminate.
Defined.

End DurableStoreClaims.

(** * Further properties of the quota ledger *)

Section QuotaLedgerMoreFacts.
Import Calendar UsageTracker.

(** Today's bucket of the working copy is today's bucket after cleanup. *)
Lemma working_copy_bucket (now : date) (data : ledger) :
  default ∅ (working_copy now data !! _get_today_key now)
  = default ∅ (_cleanup_old_data now data !! _get_today_key now).
Proof.
  unfold working_copy. cbv zeta.
  destruct (_cleanup_old_data now data !! _get_today_key now) eqn:E.
  - by rewrite E.
  - by rewrite lookup_insert_eq.
Qed.

Lemma working_copy_other (now : date) (data : ledger) (k : string) :
  k <> _get_today_key now ->
  working_copy now data !! k = _cleanup_old_data now data !! k.
Proof.
  intros Hk. unfold working_copy. cbv zeta.
  destruct (_cleanup_old_data now data !! _get_today_key now); [done|].
  by rewrite lookup_insert_ne.
Qed.

Lemma check_usage_limit_seen now user_id ip_address f :
  f <> FileUnreadable ->
  check_usage_limit now user_id ip_address f
  = (Returns (seen_count now f (identity_key user_id ip_address)
                <? identity_limit user_id,
              seen_count now f (identity_key user_id ip_address),
              identity_limit user_id), f).
Proof.
  intros Hf. by rewrite check_usage_limit_unfold, load_usage_data_loaded.
Qed.

Lemma check_usage_limit_unreadable now user_id ip_address :
  check_usage_limit now user_id ip_address FileUnreadable
  = (Raises OSError, FileUnreadable).
Proof. by rewrite check_usage_limit_unfold. Qed.

(** [increment_usage] on a file that can be opened. *)
Lemma increment_usage_seen w now user_id ip_address f :
  f <> FileUnreadable ->
  let key := identity_key user_id ip_address in
  let c := seen_count now f key in
  increment_usage w now user_id ip_address f
  = if identity_limit user_id <=? c then (Returns false, f)
    else (Returns true,
          match w with
          | SaveOk =>
              FileJson (<[_get_today_key now :=
                            <[key := c + 1]>
                              (default ∅ (_cleanup_old_data now (loaded f)
                                            !! _get_today_key now))]>
                          (working_copy now (loaded f)))
          | SaveOpenFails => f
          | SaveWriteFails => FileCorrupt
          end).
Proof.
  intros Hf. cbv zeta.
  rewrite increment_usage_unfold, load_usage_data_loaded by done. cbv zeta.
  rewrite working_copy_bucket. fold (seen_count now f (identity_key user_id ip_address)).
  destruct (_ <=? _); [done|]. by destruct w.
Qed.

Lemma increment_usage_unreadable w now user_id ip_address :
  increment_usage w now user_id ip_address FileUnreadable
  = (Raises OSError, FileUnreadable).
Proof. by rewrite increment_usage_unfold. Qed.


Lemma seen_count_stored now f key :
  clock_date now ->
  seen_count now f key = stored_count f (_get_today_key now) key.
Proof.
  intros Hc. unfold seen_count. by rewrite cleanup_today, stored_count_loaded.
Qed.

Lemma key_limit_identity (user_id ip_address : option string) :
  key_limit (identity_key user_id ip_address) = identity_limit user_id.
Proof.
  unfold key_limit, identity_key, identity_limit.
  destruct (truthy user_id); [|done].
  by destruct (fstr user_id).
Qed.

(** The date keys follow the dates. *)
Lemma date_key_le (a b : date) :
  fits a -> fits b -> date_compare a b <> Gt ->
  String.leb (strftime_ymd a) (strftime_ymd b) = true.
Proof.
  intros Ha Hb Hle. unfold String.leb.
  rewrite strftime_ymd_compare by done. by destruct (date_compare a b).
Qed.

Lemma date_key_ne (a b : date) :
  fits a -> fits b -> date_lt a b -> strftime_ymd a <> strftime_ymd b.
Proof.
  intros Ha Hb Hlt Heq.
  pose proof (strftime_ymd_compare a b Ha Hb) as H.
  rewrite Heq, Hlt in H.
  assert (String.compare (strftime_ymd b) (strftime_ymd b) = Eq) as Hrefl.
  { clear. induction (strftime_ymd b) as [|c s IH]; [done|].
    cbn [String.compare]. by rewrite ascii_compare_refl. }
  congruence.
Qed.

Lemma unreadable_or_not (f : usage_file) :
  f = FileUnreadable \/ f <> FileUnreadable.
Proof. destruct f; (by left) || (by right). Qed.

Lemma cutoff_lt_today (now : date) :
  clock_date now -> date_lt (minus_days 7 now) now.
Proof. intros [Hv _]. by apply (minus_days_lt 6). Qed.

Lemma cleanup_subset (now : date) (data : ledger) (k : string) (b : bucket) :
  _cleanup_old_data now data !! k = Some b -> data !! k = Some b.
Proof. rewrite cleanup_lookup. by destruct (String.leb _ k). Qed.

Lemma cleanup_idem (now : date) (data : ledger) :
  _cleanup_old_data now (_cleanup_old_data now data) = _cleanup_old_data now data.
Proof.
  apply map_eq. intros k. rewrite !cleanup_lookup.
  by destruct (String.leb _ k).
Qed.

(** A check on a later date does not see a commit made on [now]. *)
Lemma check_later_after_commit now later user_id ip_address user_id' ip_address' f :
  clock_date now -> clock_date later -> date_lt now later ->
  (check_usage_limit later user_id' ip_address'
     (increment_usage SaveOk now user_id ip_address f).2).1
  = (check_usage_limit later user_id' ip_address' f).1.
Proof.
  intros Hn Hl Hlt.
  destruct (unreadable_or_not f) as [->|Hf];
    [by rewrite increment_usage_unreadable|].
  rewrite increment_usage_seen by done. cbv zeta.
  destruct (_ <=? _); [done|]. cbn [snd].
  rewrite !check_usage_limit_seen by done. cbn [fst].
  assert (Hne : _get_today_key later <> _get_today_key now).
  { intros Heq. symmetry in Heq. revert Heq.
    apply date_key_ne; auto using clock_date_fits. }
  assert (Hkeep : String.leb (strftime_ymd (minus_days 7 now))
                    (_get_today_key later) = true).
  { apply date_key_le; auto using clock_date_fits, cutoff_fits.
    rewrite (date_lt_trans _ now later); [done|by apply cutoff_lt_today|done]. }
  unfold seen_count. cbn [loaded].
  rewrite !(cleanup_lookup later), cutoff_le_today by done.
  rewrite lookup_insert_ne by done.
  rewrite working_copy_other by done.
  by rewrite cleanup_lookup, Hkeep.
Qed.

Lemma next_day_valid (d : date) : valid_date d -> valid_date (next_day d).
Proof.
  destruct d as [y m dd]. unfold valid_date, next_day; simpl.
  intros [Hm Hd].
  destruct (dd <? days_in_month y m) eqn:E1; simpl.
  - apply Z.ltb_lt in E1. lia.
  - destruct (m <? 12) eqn:E2; simpl.
    + apply Z.ltb_lt in E2. unfold days_in_month. repeat case_match; lia.
    + unfold days_in_month. simpl. lia.
Qed.

Lemma next_day_lt (d : date) : valid_date d -> date_lt d (next_day d).
Proof.
  destruct d as [y m dd]. unfold valid_date, date_lt, date_compare, next_day; simpl.
  intros [Hm Hd].
  destruct (dd <? days_in_month y m) eqn:E1; simpl.
  - rewrite !Z.compare_refl. apply Z.compare_lt_iff. lia.
  - destruct (m <? 12) eqn:E2; simpl.
    + rewrite Z.compare_refl.
      replace (m ?= m + 1) with Lt; [done|]. symmetry. apply Z.compare_lt_iff. lia.
    + replace (y ?= y + 1) with Lt; [done|]. symmetry. apply Z.compare_lt_iff. lia.
Qed.

Lemma next_day_year (d : date) : year d <= year (next_day d) <= year d + 1.
Proof.
  destruct d as [y m dd]. unfold next_day; simpl.
  repeat (case_match; simpl); lia.
Qed.

Lemma next_day_clock (now : date) :
  clock_date now -> year now < 9999 -> clock_date (next_day now).
Proof.
  intros [Hv Hy] Hlt. split; [by apply next_day_valid|].
  pose proof (next_day_year now). lia.
Qed.

Lemma strftime_ymd_length (d : date) : String.length (strftime_ymd d) = 10%nat.
Proof.
  unfold strftime_ymd. rewrite !length_app, !zero_padded_length. reflexivity.
Qed.

Lemma substring_prefix (a b : string) :
  String.substring 0 (String.length a) (a +:+ b) = a.
Proof.
  induction a as [|c a IH]; simpl; [by destruct b|]. by rewrite IH.
Qed.

(** The date part of the reset time is the key of the next day. *)
Lemma reset_time_date (now : date) :
  String.substring 0 10 (_get_reset_time now) = _get_today_key (next_day now).
Proof.
  unfold _get_reset_time, _get_today_key. cbv zeta.
  rewrite <- (strftime_ymd_length (next_day now)). apply substring_prefix.
Qed.

(** The count seen in a file whose bucket of today was just written. *)
Lemma seen_count_written now (data : ledger) (today_data : bucket) key v key' :
  clock_date now ->
  seen_count now
    (FileJson (<[_get_today_key now := <[key := v]> today_data]> data)) key'
  = if decide (key' = key) then v else default 0 (today_data !! key').
Proof.
  intros Hc. unfold seen_count. cbn [loaded].
  rewrite cleanup_today by done.
  rewrite lookup_insert_eq. cbn [from_option id].
  destruct (decide (key' = key)) as [->|Hne].
  - by rewrite lookup_insert_eq.
  - by rewrite lookup_insert_ne.
Qed.

Lemma check_seen_zero now user_id ip_address f :
  f <> FileUnreadable ->
  (check_usage_limit now user_id ip_address f).1
  = Returns (true, 0, identity_limit user_id) ->
  seen_count now f (identity_key user_id ip_address) = 0.
Proof.
  intros Hf. rewrite check_usage_limit_seen by done. cbn [fst].
  by intros [= _ ->].
Qed.

(** The ledger an accepted commit writes keeps the counts within the
    limits. *)
Lemma written_within_limits now user_id ip_address f :
  counts_within_limits (loaded f) ->
  seen_count now f (identity_key user_id ip_address) < identity_limit user_id ->
  counts_within_limits
    (<[_get_today_key now :=
         <[identity_key user_id ip_address :=
             seen_count now f (identity_key user_id ip_address) + 1]>
           (default ∅ (_cleanup_old_data now (loaded f) !! _get_today_key now))]>
       (working_copy now (loaded f))).
Proof.
  intros Hinv Hlt.
  set (td := default ∅ (_cleanup_old_data now (loaded f) !! _get_today_key now)).
  assert (Htd : forall key c, td !! key = Some c -> 1 <= c <= key_limit key).
  { intros key c Hc. subst td.
    destruct (_cleanup_old_data now (loaded f) !! _get_today_key now)
      as [b|] eqn:E; cbn [from_option id] in Hc;
      [|by rewrite lookup_empty in Hc].
    apply cleanup_subset in E. by apply (Hinv _ _ _ _ E). }
  intros dk key b c Hb Hc.
  destruct (decide (dk = _get_today_key now)) as [->|Hdk].
  - rewrite lookup_insert_eq in Hb. injection Hb as <-.
    destruct (decide (key = identity_key user_id ip_address)) as [->|Hkey].
    + rewrite lookup_insert_eq in Hc. injection Hc as <-.
      rewrite key_limit_identity. unfold seen_count in *. fold td in Hlt |- *.
      destruct (td !! identity_key user_id ip_address) as [c0|] eqn:E0;
        cbn [from_option id] in *; [|lia].
      pose proof (Htd _ _ E0). lia.
    + rewrite lookup_insert_ne in Hc by done. by apply Htd.
  - rewrite lookup_insert_ne in Hb by done.
    rewrite working_copy_other in Hb by done.
    apply cleanup_subset in Hb. by apply (Hinv _ _ _ _ Hb).
Qed.

End QuotaLedgerMoreFacts.

Section QuotaLedgerExtras.
Import Calendar UsageTracker.

(** X1: The answer of [check_usage_limit] is the answer [increment_usage]
    gives on the same file: the commit is accepted exactly when the check
    allows it, and both raise on a file that cannot be opened. *)
Theorem commit_agrees_with_check (w : save_fault) (now : date)
    (user_id ip_address : option string) (f : usage_file) :
  (increment_usage w now user_id ip_address f).1
  = match (check_usage_limit now user_id ip_address f).1 with
    | Returns (allowed, _, _) => Returns allowed
    | Raises e => Raises e
    end.
Proof.
  destruct (unreadable_or_not f) as [->|Hf].
  - by rewrite increment_usage_unreadable, check_usage_limit_unreadable.
  - rewrite increment_usage_seen, check_usage_limit_seen by done. cbv zeta.
    cbn [fst].
    destruct (Z.leb_spec (identity_limit user_id)
                (seen_count now f (identity_key user_id ip_address)));
      destruct (Z.ltb_spec (seen_count now f (identity_key user_id ip_address))
                  (identity_limit user_id)); try lia; done.
Qed.

Lemma clock_2024_03_01 : clock_date (mkdate 2024 3 1).
Proof. repeat split; vm_compute; discriminate. Qed.

Lemma clock_2024_03_02 : clock_date (mkdate 2024 3 2).
Proof. repeat split; vm_compute; discriminate. Qed.

(** X2: An accepted commit whose save succeeds raises the identity's count by
    exactly one and changes what a check reports for no other identity. *)
Theorem accepted_commit_counts_once (now : date)
    (user_id ip_address : option string) (f : usage_file) (c l : Z) :
  clock_date now ->
  (check_usage_limit now user_id ip_address f).1 = Returns (true, c, l) ->
  let f' := (increment_usage SaveOk now user_id ip_address f).2 in
  (check_usage_limit now user_id ip_address f').1
  = Returns (c + 1 <? l, c + 1, l)
  /\ forall user_id' ip_address',
      identity_key user_id' ip_address' <> identity_key user_id ip_address ->
      (check_usage_limit now user_id' ip_address' f').1
      = (check_usage_limit now user_id' ip_address' f).1.
Proof.
  intros Hc Hcheck.
  destruct (unreadable_or_not f) as [->|Hf];
    [by rewrite check_usage_limit_unreadable in Hcheck|].
  rewrite check_usage_limit_seen in Hcheck by done. cbn [fst] in Hcheck.
  injection Hcheck as Hlt <- <-. apply Z.ltb_lt in Hlt.
  cbv zeta. rewrite increment_usage_seen by done. cbv zeta.
  destruct (Z.leb_spec (identity_limit user_id)
              (seen_count now f (identity_key user_id ip_address))); [lia|].
  cbn [snd]. split.
  - rewrite check_usage_limit_seen by done. cbn [fst].
    rewrite seen_count_written by done. by rewrite decide_True.
  - intros user_id' ip_address' Hne.
    rewrite !check_usage_limit_seen by done. cbn [fst].
    rewrite seen_count_written by done. by rewrite decide_False.
Qed.

Lemma accepted_commit_counts_once_witness :
  (check_usage_limit (mkdate 2024 3 1) (Some "u1") None
     (increment_usage SaveOk (mkdate 2024 3 1) (Some "u1") None
        (FileJson {[ "2024-03-01" := {[ "user:u1" := 3 ]} ]})).2).1
  = Returns (true, 4, 5).
Proof.
  refine (proj1 (accepted_commit_counts_once (mkdate 2024 3 1) (Some "u1") None
                   (FileJson {[ "2024-03-01" := {[ "user:u1" := 3 ]} ]}) 3 5
                   clock_2024_03_01 _)).
  vm_compute. reflexivity.
Defined.

(** X3: The counters of authenticated users and of anonymous addresses never
    share a key: a user key is no address key, distinct users have distinct
    keys and so have distinct addresses; an empty user id is counted under
    the address. *)
Theorem identity_keys_separate :
  (forall u ip ip', truthy (Some u) = true ->
                    identity_key (Some u) ip <> identity_key None ip')
  /\ (forall u u' ip ip',
        truthy (Some u) = true -> truthy (Some u') = true ->
        identity_key (Some u) ip = identity_key (Some u') ip' -> u = u')
  /\ (forall a b, identity_key None (Some a) = identity_key None (Some b) -> a = b)
  /\ (forall ip, identity_key (Some "") ip = identity_key None ip).
Proof.
  unfold identity_key. repeat split.
  - intros u ip ip' Hu. rewrite Hu. simpl. discriminate.
  - intros u u' ip ip' Hu Hu'. rewrite Hu, Hu'. simpl. intros [= H]. exact H.
  - intros a b. simpl. intros [= H]. exact H.
Qed.

Lemma identity_keys_separate_witness :
  identity_key (Some "203.0.113.5") None <> identity_key None (Some "203.0.113.5").
Proof.
  apply (proj1 identity_keys_separate "203.0.113.5" None (Some "203.0.113.5")).
  reflexivity.
Defined.

(** X4: Day isolation: a commit leaves what a check reports on any later date,
    for any identity, as it was. *)
Theorem later_day_unaffected (now later : date)
    (user_id ip_address user_id' ip_address' : option string) (f : usage_file) :
  clock_date now -> clock_date later -> date_lt now later ->
  (check_usage_limit later user_id' ip_address'
     (increment_usage SaveOk now user_id ip_address f).2).1
  = (check_usage_limit later user_id' ip_address' f).1.
Proof. apply check_later_after_commit. Qed.

Lemma later_day_unaffected_witness :
  (check_usage_limit (mkdate 2024 3 2) None (Some "203.0.113.5")
     (increment_usage SaveOk (mkdate 2024 3 1) None (Some "203.0.113.5")
        (FileJson ∅)).2).1
  = Returns (true, 0, 1).
Proof.
  rewrite (later_day_unaffected (mkdate 2024 3 1) (mkdate 2024 3 2) None
             (Some "203.0.113.5") None (Some "203.0.113.5") (FileJson ∅)
             clock_2024_03_01 clock_2024_03_02 eq_refl).
  reflexivity.
Defined.

(** X5: [get_usage_stats] never writes, reports what [check_usage_limit]
    reports, and its [remaining] is never negative, is positive exactly
    when [can_generate] holds, and adds up with [current_usage] to the
    limit as long as the usage is within the limit. *)
Theorem usage_stats_consistent (now : date) (user_id ip_address : option string)
    (f f' : usage_file) (st : usage_stats) :
  get_usage_stats now user_id ip_address f = (Returns st, f') ->
  f' = f
  /\ (check_usage_limit now user_id ip_address f).1
     = Returns (can_generate st, current_usage st, limit st)
  /\ limit st = identity_limit user_id
  /\ 0 <= remaining st
  /\ (can_generate st = true <-> 0 < remaining st)
  /\ (current_usage st <= limit st ->
      current_usage st + remaining st = limit st).
Proof.
  unfold get_usage_stats, bind.
  destruct (unreadable_or_not f) as [->|Hf];
    [by rewrite check_usage_limit_unreadable|].
  rewrite check_usage_limit_seen by done. cbv iota beta. unfold ret.
  intros [= <- <-]. cbn.
  repeat split; lia.
Qed.

Lemma usage_stats_consistent_witness :
  exists st,
    get_usage_stats (mkdate 2024 3 1) (Some "u1") None
      (FileJson {[ "2024-03-01" := {[ "user:u1" := 5 ]} ]})
    = (Returns st, FileJson {[ "2024-03-01" := {[ "user:u1" := 5 ]} ]})
    /\ current_usage st + remaining st = limit st.
Proof.
  eexists. split; [reflexivity|].
  refine (proj2 (proj2 (proj2 (proj2 (proj2
            (usage_stats_consistent (mkdate 2024 3 1) (Some "u1") None
               (FileJson {[ "2024-03-01" := {[ "user:u1" := 5 ]} ]}) _ _
               eq_refl))))) _).
  vm_compute. discriminate.
Defined.

(** X6: The limit resets at the time [_get_reset_time] names: on the date of
    that time, for which the ledger holds no bucket yet, every identity is
    back at zero usage, whatever was committed today and whatever happened
    to that save. *)
Theorem usage_resets_at_reset_time (w : save_fault) (now : date)
    (user_id ip_address user_id' ip_address' : option string) (f : usage_file) :
  clock_date now -> year now < 9999 -> f <> FileUnreadable ->
  stored_bucket f (String.substring 0 10 (_get_reset_time now)) = None ->
  (check_usage_limit (next_day now) user_id' ip_address'
     (increment_usage w now user_id ip_address f).2).1
  = Returns (true, 0, identity_limit user_id').
Proof.
  intros Hc Hy Hf Hnone. rewrite reset_time_date in Hnone.
  pose proof (next_day_clock now Hc Hy) as Hc'.
  assert (Hzero : forall g, g <> FileUnreadable ->
            default ∅ (loaded g !! _get_today_key (next_day now))
              !! identity_key user_id' ip_address' = None ->
            (check_usage_limit (next_day now) user_id' ip_address' g).1
            = Returns (true, 0, identity_limit user_id')).
  { intros g Hg Hk. by rewrite check_count_zero. }
  assert (Hf0 : default ∅ (loaded f !! _get_today_key (next_day now))
                  !! identity_key user_id' ip_address' = None).
  { destruct f as [| | |data]; try (simpl; by rewrite lookup_empty).
    unfold stored_bucket in Hnone. cbn [stored_ledger loaded] in *.
    by rewrite Hnone. }
  destruct w.
  - rewrite check_later_after_commit; [by apply Hzero|done|done|].
    destruct Hc as [Hv _]. by apply next_day_lt.
  - rewrite increment_usage_seen by done. cbv zeta.
    destruct (_ <=? _); by apply Hzero.
  - rewrite increment_usage_seen by done. cbv zeta.
    destruct (_ <=? _); cbn [snd]; by apply Hzero.
Qed.

Lemma usage_resets_at_reset_time_witness :
  _get_reset_time (mkdate 2024 12 31) = "2025-01-01T00:00:00+00:00"
  /\ (check_usage_limit (mkdate 2025 1 1) None (Some "203.0.113.5")
        (increment_usage SaveOk (mkdate 2024 12 31) None (Some "203.0.113.5")
           (FileJson {[ "2024-12-31" := {[ "ip:203.0.113.5" := 1 ]} ]})).2).1
     = Returns (true, 0, 1).
Proof.
  split; [reflexivity|].
  refine (usage_resets_at_reset_time SaveOk (mkdate 2024 12 31) None
            (Some "203.0.113.5") None (Some "203.0.113.5")
            (FileJson {[ "2024-12-31" := {[ "ip:203.0.113.5" := 1 ]} ]})
            _ _ _ _).
  - repeat split; vm_compute; discriminate.
  - reflexivity.
  - discriminate.
  - vm_compute. reflexivity.
Defined.

(** X7: A ledger in which every count lies between 1 and the limit of its key
    (5 for a [user:] key, 1 for any other) stays so under
    [increment_usage] and [reset_usage], whatever happens to the save. *)
Theorem counts_stay_within_limits (w : save_fault) (now : date)
    (user_id ip_address : option string) (f : usage_file) :
  counts_within_limits (loaded f) ->
  counts_within_limits (loaded (increment_usage w now user_id ip_address f).2)
  /\ counts_within_limits (loaded (reset_usage w now user_id ip_address f).2).
Proof.
  intros Hinv.
  assert (Hempty : counts_within_limits ∅).
  { intros dk key b c Hb. by rewrite lookup_empty in Hb. }
  split.
  - destruct (unreadable_or_not f) as [->|Hf];
      [by rewrite increment_usage_unreadable|].
    rewrite increment_usage_seen by done. cbv zeta.
    destruct (Z.leb_spec (identity_limit user_id)
                (seen_count now f (identity_key user_id ip_address)))
      as [Hle|Hlt]; [done|].
    destruct w; cbn [snd loaded]; [|done|done].
    by apply written_within_limits.
  - rewrite reset_usage_file.
    destruct f as [| | |data]; try done. cbn [loaded] in Hinv.
    destruct (data !! _get_today_key now) as [b0|] eqn:E0; [|done].
    destruct w; cbn [loaded]; [|done|done].
    unfold del_entry. cbv zeta. rewrite E0. cbn [from_option id].
    destruct (b0 !! identity_key user_id ip_address) eqn:Ek; [|done].
    intros dk key b c Hb Hc.
    destruct (decide (dk = _get_today_key now)) as [->|Hdk].
    + rewrite lookup_insert_eq in Hb. injection Hb as <-.
      destruct (decide (key = identity_key user_id ip_address)) as [->|Hkey].
      * by rewrite lookup_delete_eq in Hc.
      * rewrite lookup_delete_ne in Hc by done. by apply (Hinv _ _ _ _ E0).
    + rewrite lookup_insert_ne in Hb by done. by apply (Hinv _ _ _ _ Hb).
Qed.

Lemma counts_stay_within_limits_witness :
  counts_within_limits
    (loaded (increment_usage SaveOk (mkdate 2024 3 1) (Some "u1") None
               (FileJson {[ "2024-03-01" :=
                              {[ "user:u1" := 4; "ip:203.0.113.5" := 1 ]} ]})).2)
  /\ counts_within_limits
       (loaded (reset_usage SaveOk (mkdate 2024 3 1) None (Some "203.0.113.5")
                  (FileJson {[ "2024-03-01" :=
                                 {[ "user:u1" := 4; "ip:203.0.113.5" := 1 ]} ]})).2).
Proof.
  assert (Hinv : counts_within_limits
                   (loaded (FileJson {[ "2024-03-01" :=
                                          {[ "user:u1" := 4;
                                             "ip:203.0.113.5" := 1 ]} ]}))).
  { intros dk key b c Hb Hc. cbn [loaded] in Hb.
    apply lookup_singleton_Some in Hb as [_ <-].
    apply lookup_insert_Some in Hc as [[<- <-] | [_ Hc]].
    - vm_compute. split; discriminate.
    - apply lookup_singleton_Some in Hc as [<- <-].
      vm_compute. split; discriminate. }
  split.
  - exact (proj1 (counts_stay_within_limits SaveOk (mkdate 2024 3 1) (Some "u1")
                    None _ Hinv)).
  - exact (proj2 (counts_stay_within_limits SaveOk (mkdate 2024 3 1) None
                    (Some "203.0.113.5") _ Hinv)).
Defined.

(** X8: After a reset whose save succeeds the identity's next commit is
    accepted; the reset changes what a check reports for no other identity
    and leaves the buckets of all other dates as they are stored (it does
    no cleanup). *)
Theorem reset_frees_only_the_identity (now : date)
    (user_id ip_address : option string) (f : usage_file) :
  f <> FileUnreadable ->
  let f1 := (reset_usage SaveOk now user_id ip_address f).2 in
  (forall w, (increment_usage w now user_id ip_address f1).1 = Returns true)
  /\ (forall user_id' ip_address',
        identity_key user_id' ip_address' <> identity_key user_id ip_address ->
        (check_usage_limit now user_id' ip_address' f1).1
        = (check_usage_limit now user_id' ip_address' f).1)
  /\ (forall k, k <> _get_today_key now -> stored_bucket f1 k = stored_bucket f k).
Proof.
  intros Hf. cbv zeta.
  assert (Hf1 : (reset_usage SaveOk now user_id ip_address f).2 <> FileUnreadable).
  { rewrite reset_usage_file. destruct f as [| | |data]; try done.
    by destruct (data !! _get_today_key now). }
  split; [|split].
  - intros w.
    pose proof (reset_usage_clears now user_id ip_address f Hf) as Hclear.
    cbv zeta in Hclear.
    pose proof (check_seen_zero now user_id ip_address _ Hf1
                  ltac:(by rewrite Hclear)) as Hzero.
    rewrite increment_usage_seen by done. cbv zeta. rewrite Hzero.
    pose proof (identity_limit_pos user_id).
    destruct (Z.leb_spec (identity_limit user_id) 0); [lia|done].
  - intros user_id' ip_address' Hne.
    rewrite !check_usage_limit_seen by done. cbn [fst].
    assert (Hsame : seen_count now (reset_usage SaveOk now user_id ip_address f).2
                      (identity_key user_id' ip_address')
                    = seen_count now f (identity_key user_id' ip_address'));
      [|by rewrite Hsame].
    rewrite reset_usage_file.
    destruct f as [| | |data]; try done.
    destruct (data !! _get_today_key now) as [b0|] eqn:E0; [|done].
    unfold seen_count. cbn [loaded]. rewrite !cleanup_lookup.
    destruct (String.leb _ _); [|done].
    unfold del_entry. cbv zeta. rewrite E0. cbn [from_option id].
    destruct (b0 !! identity_key user_id ip_address) eqn:Ek; [|by rewrite E0].
    rewrite lookup_insert_eq. cbn [from_option id].
    by rewrite lookup_delete_ne.
  - intros k Hk. rewrite reset_usage_file.
    destruct f as [| | |data]; try done.
    destruct (data !! _get_today_key now) as [b0|] eqn:E0; [|done].
    unfold stored_bucket. cbn [stored_ledger].
    unfold del_entry. cbv zeta. rewrite E0. cbn [from_option id].
    destruct (b0 !! identity_key user_id ip_address) eqn:Ek; [|done].
    by rewrite lookup_insert_ne.
Qed.

Lemma reset_frees_only_the_identity_witness :
  (increment_usage SaveOk (mkdate 2024 3 1) None (Some "203.0.113.5")
     (reset_usage SaveOk (mkdate 2024 3 1) None (Some "203.0.113.5")
        (FileJson {[ "2024-03-01" := {[ "ip:203.0.113.5" := 1 ]} ]})).2).1
  = Returns true.
Proof.
  refine (proj1 (reset_frees_only_the_identity (mkdate 2024 3 1) None
                   (Some "203.0.113.5")
                   (FileJson {[ "2024-03-01" := {[ "ip:203.0.113.5" := 1 ]} ]}) _)
            SaveOk).
  discriminate.
Defined.

(** X9: [_cleanup_old_data] keeps, unchanged, every bucket dated at most 7 days
    back (or later); what it returns holds only buckets of its argument,
    and cleaning twice is cleaning once. *)
Theorem cleanup_keeps_last_seven_days (now : date) (data : ledger) :
  clock_date now ->
  (forall d, fits d -> date_compare (minus_days 7 now) d <> Gt ->
             _cleanup_old_data now data !! strftime_ymd d
             = data !! strftime_ymd d)
  /\ (forall k b, _cleanup_old_data now data !! k = Some b -> data !! k = Some b)
  /\ _cleanup_old_data now (_cleanup_old_data now data)
     = _cleanup_old_data now data.
Proof.
  intros Hc. split; [|split].
  - intros d Hd Hle. rewrite cleanup_lookup.
    by rewrite date_key_le by auto using cutoff_fits.
  - apply cleanup_subset.
  - apply cleanup_idem.
Qed.

Lemma cleanup_keeps_last_seven_days_witness :
  _cleanup_old_data (mkdate 2024 3 1)
    {[ "2024-02-23" := {[ "ip:203.0.113.5" := 1 ]} ]} !! "2024-02-23"
  = Some {[ "ip:203.0.113.5" := 1 ]}.
Proof.
  rewrite (proj1 (cleanup_keeps_last_seven_days (mkdate 2024 3 1)
                    {[ "2024-02-23" := {[ "ip:203.0.113.5" := 1 ]} ]}
                    clock_2024_03_01) (mkdate 2024 2 23)).
  - reflexivity.
  - vm_compute. repeat split; discriminate.
  - vm_compute. discriminate.
Defined.

(** X10: Constructing a tracker never raises, leaves an existing usage file as
    it is (creating [{}] only when none exists), and never changes what a
    check reports, whatever happens to the write of the new file. *)
Theorem construction_preserves_usage (w : save_fault) (now : date)
    (user_id ip_address : option string) (f : usage_file) :
  (__init__ w f).1 = Returns tt
  /\ (f <> FileAbsent -> (__init__ w f).2 = f)
  /\ (f = FileAbsent -> w = SaveOk -> (__init__ w f).2 = FileJson ∅)
  /\ (check_usage_limit now user_id ip_address (__init__ w f).2).1
     = (check_usage_limit now user_id ip_address f).1.
Proof.
  repeat split.
  - by destruct f, w.
  - by destruct f, w.
  - by intros -> ->.
  - destruct f as [| | |data]; try done.
    destruct w; try done.
    + by rewrite !check_usage_limit_seen.
    + by rewrite !check_usage_limit_seen.
Qed.

Lemma construction_preserves_usage_witness :
  (__init__ SaveOk (FileJson {[ "2024-03-01" := {[ "user:u1" := 5 ]} ]})).2
  = FileJson {[ "2024-03-01" := {[ "user:u1" := 5 ]} ]}.
Proof.
  refine (proj1 (proj2 (construction_preserves_usage SaveOk (mkdate 2024 3 1)
                          (Some "u1") None
                          (FileJson {[ "2024-03-01" := {[ "user:u1" := 5 ]} ]}))) _).
  discriminate.
Defined.
End QuotaLedgerExtras.

(** ** Commits that run one after the other *)

Section SerializedCommits.
Import Calendar UsageTracker Interleaving.

Lemma commit_n_app (a b : nat) now user_id ip_address f :
  commit_n (a + b) now user_id ip_address f
  = (let (r1, f1) := commit_n a now user_id ip_address f in
     let (r2, f2) := commit_n b now user_id ip_address f1 in
     ((r1 ++ r2)%list, f2)).
Proof.
  revert f. induction a as [|a IH]; intros f; cbn [commit_n Nat.add].
  - by destruct (commit_n b now user_id ip_address f).
  - destruct (increment_usage SaveOk now user_id ip_address f) as [r f'].
    rewrite IH.
    destruct (commit_n a now user_id ip_address f') as [r1 f1].
    by destruct (commit_n b now user_id ip_address f1).
Qed.

Lemma commit_n_refused (n : nat) now user_id ip_address f :
  clock_date now ->
  identity_limit user_id
    <= stored_count f (_get_today_key now) (identity_key user_id ip_address) ->
  commit_n n now user_id ip_address f = (replicate n (Returns false), f).
Proof.
  intros Hc Hlim. induction n as [|n IH]; [done|].
  cbn [commit_n]. rewrite increment_usage_refused by done. by rewrite IH.
Qed.

(** The serial schedule runs the commits one after the other. *)
Lemma run_serial now user_id ip_address (k : nat) :
  forall (m : nat) (f : usage_file) (finished : list thread),
    length finished = m ->
    run now (flat_map (fun i => [i; i]) (seq m k)) f
      ((finished ++ replicate k (Ready user_id ip_address))%list)
    = (let (rs, f') := commit_n k now user_id ip_address f in
       (f', (finished ++ map Finished rs)%list)).
Proof.
  induction k as [|k IH]; intros m f finished Hlen.
  - cbn [seq flat_map run replicate commit_n map]. by rewrite !app_nil_r.
  - cbn [seq flat_map app run commit_n replicate].
    pose proof (step_thread_sequential now user_id ip_address f) as Hseq.
    rewrite lookup_app_r by lia.
    replace (m - length finished)%nat with 0%nat by lia. cbn [lookup list_lookup].
    destruct (step_thread now (Ready user_id ip_address) f) as [t1 f1].
    rewrite insert_app_r_alt by lia.
    replace (m - length finished)%nat with 0%nat by lia.
    cbn [insert list_insert].
    rewrite lookup_app_r by lia.
    replace (m - length finished)%nat with 0%nat by lia. cbn [lookup list_lookup].
    rewrite Hseq.
    destruct (increment_usage SaveOk now user_id ip_address f) as [r f'].
    rewrite insert_app_r_alt by lia.
    replace (m - length finished)%nat with 0%nat by lia.
    cbn [insert list_insert].
    rewrite (cons_middle (Finished r)), app_assoc.
    rewrite (IH (S m) f' (finished ++ [Finished r])%list) by (rewrite List.length_app; simpl; lia).
    destruct (commit_n k now user_id ip_address f') as [rs f''].
    cbn [map]. by rewrite <- app_assoc.
Qed.

Lemma successes_finished (rs : list (outcome bool)) :
  successes (map Finished rs)
  = length (List.filter (fun r => match r with Returns true => true | _ => false end) rs).
Proof.
  unfold successes. induction rs as [|[[|]|e] rs IH]; simpl; auto.
Qed.

Lemma successes_replicate (a b : nat) :
  successes (map Finished (replicate a (Returns true) ++ replicate b (Returns false))%list)
  = a.
Proof.
  rewrite successes_finished.
  induction a as [|a IH]; simpl.
  - induction b as [|b IHb]; simpl; auto.
  - by rewrite IH.
Qed.

Lemma commit_n_from_zero (n : nat) now user_id ip_address f :
  clock_date now -> f <> FileUnreadable ->
  stored_count f (_get_today_key now) (identity_key user_id ip_address) = 0 ->
  let accepted := Nat.min n (Z.to_nat (identity_limit user_id)) in
  let res := commit_n n now user_id ip_address f in
  res.1 = (replicate accepted (Returns true)
             ++ replicate (n - accepted) (Returns false))%list
  /\ stored_count res.2 (_get_today_key now) (identity_key user_id ip_address)
     = Z.of_nat accepted.
Proof.
  intros Hc Hf H0. cbv zeta.
  pose proof (identity_limit_pos user_id) as Hpos.
  set (a := Nat.min n (Z.to_nat (identity_limit user_id))).
  replace n with (a + (n - a))%nat at 1 3 by lia.
  rewrite commit_n_app.
  destruct (commit_n_accepts now user_id ip_address a Hc f Hf) as (Hr & Hf1 & Hcnt);
    [lia|].
  destruct (commit_n a now user_id ip_address f) as [r1 f1]. cbn [fst snd] in *.
  destruct (decide (n - a = 0)%nat) as [Hz|Hnz].
  - rewrite Hz. cbn [commit_n replicate]. cbn [fst snd].
    split; [by rewrite Hr|lia].
  - rewrite commit_n_refused by (try done; lia). cbn [fst snd].
    split; [by rewrite Hr|lia].
Qed.

(** X11: Commits for one identity that run one after the other, each to its
    end, respect the limit: of [n] commits on a day without usage exactly
    min(n, limit) return [True], and the stored count ends at
    min(n, limit). *)
Theorem serialized_commits_respect_limit (n : nat) (now : date)
    (user_id ip_address : option string) (f : usage_file) :
  clock_date now -> f <> FileUnreadable ->
  stored_count f (_get_today_key now) (identity_key user_id ip_address) = 0 ->
  let res := run now (serial_schedule n) f
               (replicate n (Ready user_id ip_address)) in
  successes res.2 = Nat.min n (Z.to_nat (identity_limit user_id))
  /\ stored_count res.1 (_get_today_key now) (identity_key user_id ip_address)
     = Z.of_nat (Nat.min n (Z.to_nat (identity_limit user_id))).
Proof.
  intros Hc Hf H0. cbv zeta. unfold serial_schedule.
  pose proof (run_serial now user_id ip_address n 0 f [] eq_refl) as Hrun.
  cbn [app] in Hrun. rewrite Hrun.
  destruct (commit_n_from_zero n now user_id ip_address f Hc Hf H0) as [Hr Hcnt].
  destruct (commit_n n now user_id ip_address f) as [rs f']. cbn [fst snd] in *.
  split; [|done].
  rewrite Hr. apply successes_replicate.
Qed.

Lemma serialized_commits_respect_limit_witness :
  successes (run (mkdate 2024 3 1) (serial_schedule 3) (FileJson ∅)
               (replicate 3 (Ready None (Some "203.0.113.5")))).2
  = 1%nat.
Proof.
  refine (proj1 (serialized_commits_respect_limit 3 (mkdate 2024 3 1) None
                   (Some "203.0.113.5") (FileJson ∅) _ _ _)).
  - repeat split; vm_compute; discriminate.
  - discriminate.
  - reflexivity.
Defined.
End SerializedCommits.

(** ** Commits under any interleaving *)

Section AnySchedule.
Import Calendar UsageTracker Interleaving.

Lemma increment_begin_seen now user_id ip_address f :
  f <> FileUnreadable ->
  let key := identity_key user_id ip_address in
  let c := seen_count now f key in
  increment_begin now user_id ip_address f
  = (Returns
       (if identity_limit user_id <=? c then None
        else Some (<[_get_today_key now :=
                      <[key := c + 1]>
                        (default ∅ (_cleanup_old_data now (loaded f)
                                      !! _get_today_key now))]>
                     (working_copy now (loaded f)))), f).
Proof.
  intros Hf. cbv zeta.
  unfold increment_begin, bind. rewrite load_usage_data_loaded by done.
  cbv zeta. fold (working_copy now (loaded f)). rewrite working_copy_bucket.
  unfold identity_key, identity_limit, seen_count.
  destruct (truthy user_id); by destruct (_ <=? _).
Qed.

Lemma step_thread_within_limits now t f :
  counts_within_limits (loaded f) -> thread_within_limits t ->
  counts_within_limits (loaded (step_thread now t f).2)
  /\ thread_within_limits (step_thread now t f).1.
Proof.
  intros Hf Ht. destruct t as [user_id ip_address|[data|]|r]; try done.
  - destruct (unreadable_or_not f) as [->|Hr]; [done|].
    unfold step_thread. rewrite increment_begin_seen by done. cbv zeta.
    cbn [fst snd]. split; [done|].
    destruct (Z.leb_spec (identity_limit user_id)
                (seen_count now f (identity_key user_id ip_address))); [done|].
    by apply written_within_limits.
Qed.

Lemma run_within_limits now (schedule : list nat) :
  forall f threads,
    counts_within_limits (loaded f) ->
    Forall thread_within_limits threads ->
    counts_within_limits (loaded (run now schedule f threads).1)
    /\ Forall thread_within_limits (run now schedule f threads).2.
Proof.
  induction schedule as [|i schedule IH]; intros f threads Hf Hts; [done|].
  cbn [run]. destruct (threads !! i) as [t|] eqn:Et; [|by apply IH].
  assert (Ht : thread_within_limits t).
  { rewrite Forall_forall in Hts. apply Hts. by eapply list_elem_of_lookup_2. }
  destruct (step_thread_within_limits now t f Hf Ht) as [Hf' Ht'].
  destruct (step_thread now t f) as [t' f']. cbn [fst snd] in *.
  apply IH; [done|]. by apply Forall_insert.
Qed.

(** X12: Whatever the interleaving of concurrent commits (of any identities),
    no count outside its limit is ever stored: the race of unserialized
    commits lets more commits succeed than the limit, but never writes a
    count above it. *)
Theorem no_schedule_stores_count_above_limit (now : date) (schedule : list nat)
    (f : usage_file) (identities : list (option string * option string)) :
  counts_within_limits (loaded f) ->
  counts_within_limits
    (loaded (run now schedule f
               (map (fun id => Ready id.1 id.2) identities)).1).
Proof.
  intros Hf. apply run_within_limits; [done|].
  apply Forall_forall. intros t Ht.
  apply list_elem_of_fmap in Ht as (id & -> & _). done.
Qed.

Lemma no_schedule_stores_count_above_limit_witness :
  counts_within_limits
    (loaded (run (mkdate 2024 3 1) [0; 1; 0; 1]%nat FileAbsent
               (map (fun id => Ready id.1 id.2)
                  [(None, Some "203.0.113.5"); (None, Some "203.0.113.5")])).1).
Proof.
  apply (no_schedule_stores_count_above_limit (mkdate 2024 3 1) [0; 1; 0; 1]%nat
           FileAbsent [(None, Some "203.0.113.5"); (None, Some "203.0.113.5")]).
  intros dk key b c Hb. simpl in Hb. by rewrite lookup_empty in Hb.
Defined.
End AnySchedule.

(** * Further properties of the durable store *)

Section DurableStoreMoreFacts.
Import PersistentStorage.

Ltac store_simpl :=
  repeat first
    [ rewrite lookup_insert_eq
    | rewrite lookup_delete_eq
    | rewrite lookup_insert_ne by done
    | rewrite lookup_delete_ne by done
    | rewrite is_Some_Some
    | rewrite is_Some_None
    | progress cbv beta iota ].

(** [_write_json_atomic] touches the target, its temporary file and its
    [.backup], whatever the fault. *)
Lemma write_json_atomic_frame (w : write_fault) (p : string) (data : value)
    (s : fs) (q : string) :
  q <> p -> q <> p +:+ ".tmp" -> q <> p +:+ ".backup" ->
  (_write_json_atomic w p data s).2 !! q = s !! q.
Proof.
  intros Hq1 Hq2 Hq3.
  pose proof (tmp_ne_target p) as Ht.
  pose proof (backup_ne_target p) as Hb.
  pose proof (tmp_ne_backup p) as Htb.
  unfold _write_json_atomic, try_except, bind, json_dump, os_replace,
    os_remove, path_exists, ret, raise.
  destruct w; cbn [backup_fails replace_fails]; cbv beta zeta iota;
    destruct (s !! p) as [c|] eqn:Ep;
    destruct (s !! (p +:+ ".tmp")) as [c'|] eqn:Etmp;
    repeat (progress (store_simpl; rewrite ?Ep, ?Etmp));
    cbn [snd]; by store_simpl.
Qed.

Lemma read_json_safe_pure (p : string) (d : value) (s : fs) :
  (_read_json_safe p d s).2 = s.
Proof. by rewrite read_json_safe_spec. Qed.

(** What a read returns depends on the target and on its [.backup] only. *)
Lemma read_json_safe_ext (p : string) (d : value) (s s' : fs) :
  s' !! p = s !! p -> s' !! (p +:+ ".backup") = s !! (p +:+ ".backup") ->
  (_read_json_safe p d s').1 = (_read_json_safe p d s).1.
Proof. intros H1 H2. by rewrite !read_json_safe_spec, H1, H2. Qed.


(** *** Sorting the snapshot names *)

Lemma leb_trans (a b c : string) :
  String.leb a b = true -> String.leb b c = true -> String.leb a c = true.
Proof.
  intros H1 H2. apply Is_true_true.
  change (String.le a c). transitivity b; by apply Is_true_true.
Qed.

Lemma leb_false_ge (a b : string) :
  String.leb a b = false -> String.leb b a = true.
Proof. intros H. destruct (String.leb_total a b) as [H'|H']; congruence. Qed.

Lemma insert_desc_perm (x : string) (l : list string) :
  insert_desc x l ≡ₚ x :: l.
Proof.
  induction l as [|y l IH]; cbn [insert_desc]; [done|].
  destruct (String.leb y x); [done|].
  rewrite IH. apply Permutation_swap.
Qed.

Lemma sort_reverse_perm (l : list string) : sort_reverse l ≡ₚ l.
Proof.
  unfold sort_reverse. induction l as [|x l IH]; cbn [foldr]; [done|].
  by rewrite insert_desc_perm, IH.
Qed.

Lemma insert_desc_sorted (x : string) (l : list string) :
  StronglySorted desc l -> StronglySorted desc (insert_desc x l).
Proof.
  induction 1 as [|y l Hl IH Hy]; cbn [insert_desc].
  - repeat constructor.
  - destruct (String.leb y x) eqn:E.
    + constructor; [by constructor|].
      constructor; [done|].
      eapply Forall_impl; [exact Hy|]. intros z Hz. unfold desc in *.
      by apply (leb_trans z y x).
    + constructor; [done|].
      rewrite insert_desc_perm. constructor; [|done].
      by apply leb_false_ge.
Qed.

Lemma sort_reverse_sorted (l : list string) : StronglySorted desc (sort_reverse l).
Proof.
  unfold sort_reverse. induction l as [|x l IH]; cbn [foldr].
  - constructor.
  - by apply insert_desc_sorted.
Qed.

Lemma sorted_app_desc (l1 l2 : list string) (a b : string) :
  StronglySorted desc (l1 ++ l2) -> a ∈ l1 -> b ∈ l2 -> desc a b.
Proof.
  induction l1 as [|x l1 IH]; intros Hs Ha Hb; [by apply elem_of_nil in Ha|].
  cbn [app] in Hs. apply StronglySorted_inv in Hs as [Hs Hx].
  apply elem_of_cons in Ha as [->|Ha]; [|by apply IH].
  rewrite Forall_forall in Hx. apply Hx. apply elem_of_app. by right.
Qed.


(** *** The backups directory *)

Lemma remove_prefix_Some (p k n : string) :
  remove_prefix p k = Some n <-> k = p +:+ n.
Proof.
  revert k. induction p as [|a p IH]; intros k; cbn [remove_prefix].
  - split; [by intros [= ->]|by intros ->].
  - destruct k as [|b k].
    + split; [done|]. intros H. discriminate.
    + destruct (Ascii.eqb a b) eqn:E.
      * apply Ascii.eqb_eq in E as ->. rewrite IH.
        split; [by intros ->|]. intros H. by injection H.
      * apply Ascii.eqb_neq in E. split; [done|].
        intros H. injection H as H _. congruence.
Qed.

Lemma path_join_backup (name : string) :
  path_join backup_dir name = (backup_dir +:+ "/") +:+ name.
Proof. reflexivity. Qed.

Lemma path_join_inj (dir a b : string) :
  path_join dir a = path_join dir b -> a = b.
Proof.
  unfold path_join. intros H.
  apply (inj (String.append dir)) in H. by apply (inj (String.append "/")) in H.
Qed.

Lemma append_assoc (a b c : string) : (a +:+ b) +:+ c = a +:+ (b +:+ c).
Proof.
  induction a as [|x a IH]; [done|].
  change (String x ((a +:+ b) +:+ c) = String x (a +:+ (b +:+ c))).
  by rewrite IH.
Qed.

Lemma os_listdir_listed (s : fs) :
  os_listdir backup_dir s = (Returns (listed s), s).
Proof. done. Qed.

Lemma first_component_idem (x : string) :
  first_component (first_component x) = first_component x.
Proof.
  induction x as [|c x IH]; cbn [first_component]; [done|].
  destruct (Ascii.eqb c "/") eqn:E; [done|].
  cbn [first_component]. by rewrite E, IH.
Qed.

(** A path shows under the name [n] when it is [n] itself or lies below
    [n/]. *)
Lemma first_component_split (x n : string) :
  first_component x = n -> x = n \/ exists rest, x = n +:+ "/" +:+ rest.
Proof.
  revert n. induction x as [|c x IH]; intros n; cbn [first_component].
  - intros <-. by left.
  - destruct (Ascii.eqb c "/") eqn:E.
    + apply Ascii.eqb_eq in E as ->. intros <-. right. by exists x.
    + intros <-. destruct (IH _ eq_refl) as [Hx | [rest Hx]].
      * left. by rewrite <- Hx.
      * right. exists rest.
        change (String c x
                = String c (first_component x +:+ "/" +:+ rest)).
        by rewrite <- Hx.
Qed.

Lemma entry_name_Some (dir k n : string) :
  entry_name dir k = Some n
  <-> exists rest, k = (dir +:+ "/") +:+ rest /\ first_component rest = n.
Proof.
  unfold entry_name. destruct (remove_prefix (dir +:+ "/") k) as [rest|] eqn:E.
  - apply remove_prefix_Some in E. split.
    + intros [= <-]. by exists rest.
    + intros (rest' & Hk & <-). rewrite Hk in E.
      apply (inj (String.append (dir +:+ "/"))) in E. by subst.
  - split; [done|]. intros (rest & Hk & _).
    assert (Hs : remove_prefix (dir +:+ "/") k = Some rest)
      by by apply remove_prefix_Some.
    congruence.
Qed.

Lemma entry_name_path_join (n : string) :
  first_component n = n -> entry_name backup_dir (path_join backup_dir n) = Some n.
Proof. intros Hn. apply entry_name_Some. by exists n. Qed.

Lemma elem_of_listed (s : fs) (name : string) :
  name ∈ listed s
  <-> exists k, is_Some (s !! k) /\ entry_name backup_dir k = Some name.
Proof.
  unfold listed. rewrite elem_of_remove_dups, list_elem_of_omap. split.
  - intros ([k c] & Hin & Hk). exists k. split; [|done].
    apply elem_of_map_to_list in Hin. by eexists.
  - intros (k & [c Hc] & Hk). exists (k, c). split; [|done].
    by apply elem_of_map_to_list.
Qed.

Lemma NoDup_listed (s : fs) : NoDup (listed s).
Proof. apply NoDup_remove_dups. Qed.

(** A listed name is the name of a direct child: it holds no [/]. *)
Lemma listed_first_component (s : fs) (n : string) :
  n ∈ listed s -> first_component n = n.
Proof.
  intros (k & _ & Hk)%elem_of_listed.
  apply entry_name_Some in Hk as (rest & _ & <-). apply first_component_idem.
Qed.

(** A file directly in the backups directory is listed under its name. *)
Lemma listed_file (s : fs) (n : string) :
  first_component n = n -> is_Some (s !! path_join backup_dir n) -> n ∈ listed s.
Proof.
  intros Hn Hs. apply elem_of_listed. exists (path_join backup_dir n).
  split; [done|]. by apply entry_name_path_join.
Qed.

Lemma elem_of_list_filter_bool (f : string -> bool) (l : list string) (x : string) :
  x ∈ List.filter f l <-> f x = true /\ x ∈ l.
Proof. rewrite !list_elem_of_In, filter_In. tauto. Qed.

Lemma NoDup_list_filter_bool (f : string -> bool) (l : list string) :
  NoDup l -> NoDup (List.filter f l).
Proof.
  induction 1 as [|x l Hx Hl IH]; cbn [List.filter]; [constructor|].
  destruct (f x); [|done]. constructor; [|done].
  rewrite elem_of_list_filter_bool. tauto.
Qed.

Lemma elem_of_snapshots (s : fs) (name : string) :
  name ∈ snapshots s <-> endswith name ".json" = true /\ name ∈ listed s.
Proof.
  unfold snapshots.
  apply (elem_of_list_filter_bool (fun f => endswith f ".json") (listed s) name).
Qed.

Lemma NoDup_snapshots (s : fs) : NoDup (snapshots s).
Proof. apply NoDup_list_filter_bool, NoDup_listed. Qed.

(** With no file below it, a path is the only one that shows under its
    name. *)
Lemma is_dir_false (p : string) (s : fs) (rest : string) :
  is_dir p s = false -> s !! ((p +:+ "/") +:+ rest) = None.
Proof.
  intros Hd. destruct (s !! ((p +:+ "/") +:+ rest)) as [c|] eqn:E; [|done].
  exfalso. apply not_true_iff_false in Hd. apply Hd.
  unfold is_dir. apply existsb_exists.
  exists ((p +:+ "/") +:+ rest, c). split.
  - apply list_elem_of_In. by apply elem_of_map_to_list.
  - cbn [fst].
    assert (Hs : remove_prefix (p +:+ "/") ((p +:+ "/") +:+ rest) = Some rest)
      by by apply remove_prefix_Some.
    by rewrite Hs.
Qed.

(** [remove_all] changes no path but those it is asked to remove. *)
Lemma remove_all_frame (refused : string -> bool) (dir : string)
    (names : list string) (s : fs) (q : string) :
  (forall n, n ∈ names -> q <> path_join dir n) ->
  (remove_all refused dir names s).2 !! q = s !! q.
Proof.
  revert s. induction names as [|n names IH]; intros s Hq; [done|].
  cbn [remove_all]. cbv zeta. unfold bind.
  destruct (refused (path_join dir n)); [done|]. unfold os_remove.
  destruct (s !! path_join dir n) eqn:E; [|done].
  rewrite IH by (intros n' Hn'; apply Hq; by right).
  apply lookup_delete_ne. intros Heq. by apply (Hq n); [left|].
Qed.

(** [remove_all] creates and rewrites nothing: a path it changes is a path
    it removed. *)
Lemma remove_all_only_removes (refused : string -> bool) (dir : string)
    (names : list string) (s : fs) (q : string) :
  (remove_all refused dir names s).2 !! q = s !! q
  \/ (remove_all refused dir names s).2 !! q = None.
Proof.
  revert s. induction names as [|n names IH]; intros s; [by left|].
  cbn [remove_all]. cbv zeta. unfold bind.
  destruct (refused (path_join dir n)); [by left|]. unfold os_remove.
  destruct (s !! path_join dir n) eqn:E; [|by left].
  destruct (IH (delete (path_join dir n) s)) as [H|H]; [|by right].
  rewrite H. destruct (decide (q = path_join dir n)) as [->|Hne].
  - right. apply lookup_delete_eq.
  - left. by apply lookup_delete_ne.
Qed.

Lemma remove_all_touched (refused : string -> bool) (dir : string)
    (names : list string) (s : fs) (q : string) :
  (remove_all refused dir names s).2 !! q = s !! q
  \/ ((remove_all refused dir names s).2 !! q = None
      /\ exists n, n ∈ names /\ q = path_join dir n).
Proof.
  destruct (decide (q ∈ path_join dir <$> names)) as [Hin|Hout].
  - apply list_elem_of_fmap in Hin as (n & -> & Hn).
    destruct (remove_all_only_removes refused dir names s (path_join dir n));
      [by left|right]. split; [done|]. by exists n.
  - left. apply remove_all_frame. intros n Hn ->. apply Hout.
    apply list_elem_of_fmap. by exists n.
Qed.

(** Distinct names that can all be removed are all removed. *)
Lemma remove_all_removes (refused : string -> bool) (dir : string)
    (names : list string) (s : fs) :
  NoDup names ->
  (forall n, n ∈ names ->
             refused (path_join dir n) = false /\ is_Some (s !! path_join dir n)) ->
  (remove_all refused dir names s).1 = Returns tt
  /\ forall n, n ∈ names ->
               (remove_all refused dir names s).2 !! path_join dir n = None.
Proof.
  revert s. induction names as [|n names IH]; intros s Hnd Hex.
  - split; [done|]. intros n Hn. by apply elem_of_nil in Hn.
  - apply NoDup_cons in Hnd as [Hn Hnd].
    cbn [remove_all]. cbv zeta. unfold bind, os_remove.
    destruct (Hex n ltac:(by left)) as [-> [c Hc]]. rewrite Hc.
    destruct (IH (delete (path_join dir n) s) Hnd) as [Hret Hgone].
    { intros n' Hn'. destruct (Hex n' ltac:(by right)) as [Hr Hs].
      split; [done|]. rewrite lookup_delete_ne; [done|].
      intros Heq. apply path_join_inj in Heq. by subst. }
    split; [done|].
    intros n' Hn'. apply elem_of_cons in Hn' as [->|Hn']; [|by apply Hgone].
    rewrite remove_all_frame; [apply lookup_delete_eq|].
    intros n'' Hn'' Heq. apply path_join_inj in Heq. by subst.
Qed.

(** The loop ends at the first removal that raises: the names before it
    are removed, it and the names after it are left. *)
Lemma remove_all_stops (refused : string -> bool) (dir : string)
    (pre : list string) (v : string) (post : list string) (s : fs) :
  NoDup (pre ++ v :: post) ->
  (forall n, n ∈ pre ->
             refused (path_join dir n) = false /\ is_Some (s !! path_join dir n)) ->
  refused (path_join dir v) = true \/ s !! path_join dir v = None ->
  let r := remove_all refused dir (pre ++ v :: post) s in
  (exists e, r.1 = Raises e)
  /\ (forall n, n ∈ pre -> r.2 !! path_join dir n = None)
  /\ (forall n, n ∈ v :: post -> r.2 !! path_join dir n = s !! path_join dir n).
Proof.
  revert s. induction pre as [|n pre IH]; intros s Hnd Hex Hv; cbv zeta.
  - cbn [app remove_all]. cbv zeta. unfold bind, os_remove, raise.
    destruct (refused (path_join dir v)) eqn:Er.
    + cbn [fst snd]. split; [by eexists|]. split; [|done].
      intros n Hn. by apply elem_of_nil in Hn.
    + destruct Hv as [Hv|Hv]; [done|]. rewrite Hv. cbn [fst snd].
      split; [by eexists|]. split; [|done].
      intros n Hn. by apply elem_of_nil in Hn.
  - cbn [app] in Hnd. apply NoDup_cons in Hnd as [Hn Hnd].
    cbn [app remove_all]. cbv zeta. unfold bind, os_remove.
    destruct (Hex n ltac:(by left)) as [-> [c Hc]]. rewrite Hc.
    assert (Hne : forall n', n' ∈ (pre ++ v :: post)%list ->
                             path_join dir n' <> path_join dir n).
    { intros n' Hn' Heq. apply path_join_inj in Heq. by subst. }
    destruct (IH (delete (path_join dir n) s) Hnd) as (Hraise & Hgone & Hleft).
    { intros n' Hn'. destruct (Hex n' ltac:(by right)) as [Hr Hs].
      split; [done|]. rewrite lookup_delete_ne; [done|].
      apply not_eq_sym, Hne, elem_of_app. by left. }
    { destruct Hv as [Hv|Hv]; [by left|right].
      rewrite lookup_delete_ne; [done|].
      apply not_eq_sym, Hne, elem_of_app. right. by left. }
    cbv zeta in Hraise, Hgone, Hleft.
    split; [done|]. split.
    + intros n' Hn'. apply elem_of_cons in Hn' as [->|Hn']; [|by apply Hgone].
      rewrite remove_all_frame; [apply lookup_delete_eq|].
      intros n'' Hn''. by apply not_eq_sym, Hne.
    + intros n' Hn'. rewrite Hleft by done.
      apply lookup_delete_ne, not_eq_sym, Hne, elem_of_app. by right.
Qed.

Lemma retained_victims (s : fs) :
  sort_reverse (snapshots s) = (retained s ++ victims s)%list.
Proof. unfold retained, victims. by rewrite take_drop. Qed.

Lemma victims_snapshots (s : fs) (n : string) : n ∈ victims s -> n ∈ snapshots s.
Proof.
  intros Hn. rewrite <- (sort_reverse_perm (snapshots s)), retained_victims.
  apply elem_of_app. by right.
Qed.

Lemma retained_snapshots (s : fs) (n : string) : n ∈ retained s -> n ∈ snapshots s.
Proof.
  intros Hn. rewrite <- (sort_reverse_perm (snapshots s)), retained_victims.
  apply elem_of_app. by left.
Qed.

Lemma NoDup_retained_victims (s : fs) : NoDup (retained s ++ victims s).
Proof.
  rewrite <- retained_victims, sort_reverse_perm. apply NoDup_snapshots.
Qed.

Lemma NoDup_victims (s : fs) : NoDup (victims s).
Proof. by destruct (proj1 (NoDup_app _ _) (NoDup_retained_victims s)) as (_ & _ & ?). Qed.

Lemma retained_not_victim (s : fs) (n : string) :
  n ∈ retained s -> n ∉ victims s.
Proof.
  destruct (proj1 (NoDup_app _ _) (NoDup_retained_victims s)) as (_ & H & _).
  apply H.
Qed.

Lemma kept_or_victim (s : fs) (n : string) :
  n ∈ snapshots s -> n ∈ retained s \/ n ∈ victims s.
Proof.
  intros Hn. rewrite <- (sort_reverse_perm (snapshots s)), retained_victims in Hn.
  by apply elem_of_app in Hn.
Qed.

Lemma victim_first_component (s : fs) (n : string) :
  n ∈ victims s -> first_component n = n /\ endswith n ".json" = true.
Proof.
  intros Hn. apply victims_snapshots, elem_of_snapshots in Hn as [Hj Hl].
  split; [by apply (listed_first_component s)|done].
Qed.

(** A path that shows under a name other than the victims' is not one the
    loop removes. *)
Lemma entry_not_victim_path (s : fs) (k n v : string) :
  entry_name backup_dir k = Some n -> v ∈ victims s -> n <> v ->
  k <> path_join backup_dir v.
Proof.
  intros Hk Hv Hne ->. apply victim_first_component in Hv as [Hv _].
  rewrite entry_name_path_join in Hk by done. congruence.
Qed.

Lemma cleanup_old_backups_spec (refused : string -> bool) (s : fs) :
  _cleanup_old_backups refused s
  = (Returns tt, (remove_all refused backup_dir (victims s) s).2).
Proof.
  unfold _cleanup_old_backups, try_except, bind.
  rewrite os_listdir_listed.
  change (List.filter (fun f => endswith f ".json") (listed s)) with (snapshots s).
  change (drop 20 (sort_reverse (snapshots s))) with (victims s).
  by destruct (remove_all refused backup_dir (victims s) s) as [[[]|e] s'].
Qed.

(** A snapshot name that is left was there before; one that is no victim
    stays. *)
Lemma cleanup_snapshots_subset (refused : string -> bool) (s : fs) (n : string) :
  n ∈ snapshots (_cleanup_old_backups refused s).2 -> n ∈ snapshots s.
Proof.
  rewrite cleanup_old_backups_spec. cbn [snd].
  rewrite !elem_of_snapshots, !elem_of_listed.
  intros [Hj (k & [c Hk] & He)]. split; [done|]. exists k. split; [|done].
  destruct (remove_all_only_removes refused backup_dir (victims s) s k) as [H|H];
    rewrite H in Hk; [by eexists|done].
Qed.

Lemma cleanup_keeps_non_victims (refused : string -> bool) (s : fs) (n : string) :
  n ∈ snapshots s -> n ∉ victims s ->
  n ∈ snapshots (_cleanup_old_backups refused s).2.
Proof.
  rewrite cleanup_old_backups_spec. cbn [snd].
  rewrite !elem_of_snapshots, !elem_of_listed.
  intros [Hj (k & Hk & He)] Hv. split; [done|]. exists k. split; [|done].
  rewrite remove_all_frame; [done|].
  intros v Hin. apply (entry_not_victim_path s k n v); [done|done|].
  intros ->. by apply Hv.
Qed.

(** A victim that is removed, being no directory, is no longer listed. *)
Lemma cleanup_drops_removed (refused : string -> bool) (s : fs) (n : string) :
  n ∈ victims s -> is_dir (path_join backup_dir n) s = false ->
  (_cleanup_old_backups refused s).2 !! path_join backup_dir n = None ->
  n ∉ snapshots (_cleanup_old_backups refused s).2.
Proof.
  intros Hv Hd Hgone Hin.
  apply elem_of_snapshots in Hin as [_ (k & [c Hk] & He)%elem_of_listed].
  apply entry_name_Some in He as (rest & -> & Hrest).
  apply first_component_split in Hrest as [-> | [rest' ->]].
  - rewrite <- path_join_backup in Hk. congruence.
  - rewrite cleanup_old_backups_spec in Hk. cbn [snd] in Hk.
    destruct (remove_all_only_removes refused backup_dir (victims s) s
                ((backup_dir +:+ "/") +:+ n +:+ "/" +:+ rest')) as [H|H];
      rewrite H in Hk; [|done].
    pose proof (is_dir_false (path_join backup_dir n) s rest' Hd) as Hnone.
    rewrite path_join_backup, !append_assoc in Hnone.
    rewrite ?append_assoc in Hk. congruence.
Qed.

End DurableStoreMoreFacts.

Section BackupRotation.
Import PersistentStorage.

(** X13: [_cleanup_old_backups] never raises, whatever removals the
    environment refuses.  It only removes: a path it changes is the file
    of a victim (a snapshot beyond the first 20 in reverse order of name),
    so it touches nothing that is not a [.json] entry directly in the
    backups directory.  The first 20 names in reverse order are kept with
    their content, and every victim sorts at or before each of them.  With
    at most 20 snapshots nothing changes.  When every victim can be
    removed, exactly the first 20 are left; when a removal raises the loop
    ends there, the victims before it are gone and the others are left,
    so more than 20 snapshots can remain. *)
Theorem cleanup_old_backups_retention (refused : string -> bool) (s : fs) :
  let s' := (_cleanup_old_backups refused s).2 in
  (_cleanup_old_backups refused s).1 = Returns tt
  /\ (forall q, s' !! q = s !! q
                \/ (s' !! q = None
                    /\ exists n, n ∈ victims s /\ q = path_join backup_dir n))
  /\ (forall q,
        (forall name, q = path_join backup_dir name ->
                      endswith name ".json" = false
                      \/ first_component name <> name) ->
        s' !! q = s !! q)
  /\ (forall n, n ∈ retained s ->
                n ∈ snapshots s'
                /\ s' !! path_join backup_dir n = s !! path_join backup_dir n)
  /\ (forall n, n ∈ snapshots s' -> n ∈ snapshots s)
  /\ (forall kept removed,
        kept ∈ retained s -> removed ∈ victims s ->
        String.leb removed kept = true)
  /\ ((length (snapshots s) <= 20)%nat -> s' = s)
  /\ ((forall n, n ∈ victims s -> removable refused s n) ->
      (forall n, n ∈ snapshots s' <-> n ∈ retained s)
      /\ (length (snapshots s') <= 20)%nat
      /\ (forall n, n ∈ victims s -> s' !! path_join backup_dir n = None))
  /\ (forall pre v post,
        victims s = (pre ++ v :: post)%list ->
        (forall n, n ∈ pre -> removable refused s n) ->
        refused (path_join backup_dir v) = true
        \/ s !! path_join backup_dir v = None ->
        (forall n, n ∈ pre -> s' !! path_join backup_dir n = None)
        /\ (forall n, n ∈ v :: post ->
                      s' !! path_join backup_dir n
                      = s !! path_join backup_dir n)).
Proof.
  cbv zeta.
  assert (Hframe : forall q,
            (forall n, n ∈ victims s -> q <> path_join backup_dir n) ->
            (_cleanup_old_backups refused s).2 !! q = s !! q).
  { intros q Hq. rewrite cleanup_old_backups_spec. by apply remove_all_frame. }
  split; [by rewrite cleanup_old_backups_spec|].
  split; [|split; [|split; [|split; [|split; [|split; [|split]]]]]].
  - intros q. rewrite cleanup_old_backups_spec. cbn [snd].
    apply remove_all_touched.
  - intros q Hq. apply Hframe. intros n Hn ->.
    apply victim_first_component in Hn as [Hn Hj].
    destruct (Hq n eq_refl); congruence.
  - intros n Hn. split.
    + apply cleanup_keeps_non_victims;
        [by apply retained_snapshots|by apply retained_not_victim].
    + apply Hframe. intros v Hv Heq. apply path_join_inj in Heq. subst v.
      by apply (retained_not_victim s n).
  - apply cleanup_snapshots_subset.
  - intros kept removed Hk Hr.
    apply (sorted_app_desc (retained s) (victims s)); [|done|done].
    rewrite <- retained_victims. apply sort_reverse_sorted.
  - intros Hlen. rewrite cleanup_old_backups_spec. cbn [snd]. unfold victims.
    rewrite drop_ge; [done|]. by rewrite sort_reverse_perm.
  - intros Hrem.
    destruct (remove_all_removes refused backup_dir (victims s) s
                (NoDup_victims s)) as [_ Hgone].
    { intros n Hn. destruct (Hrem n Hn) as (? & ? & _). by split. }
    assert (Hgone' : forall n, n ∈ victims s ->
              (_cleanup_old_backups refused s).2 !! path_join backup_dir n = None).
    { intros n Hn. rewrite cleanup_old_backups_spec. by apply Hgone. }
    assert (Hiff : forall n, n ∈ snapshots (_cleanup_old_backups refused s).2
                             <-> n ∈ retained s).
    { intros n. split.
      - intros Hin.
        destruct (kept_or_victim s n (cleanup_snapshots_subset _ _ _ Hin))
          as [|Hv]; [done|].
        exfalso. destruct (Hrem n Hv) as (_ & _ & Hd).
        by apply (cleanup_drops_removed refused s n Hv Hd (Hgone' n Hv)).
      - intros Hin. apply cleanup_keeps_non_victims;
          [by apply retained_snapshots|by apply retained_not_victim]. }
    split; [done|]. split; [|done].
    transitivity (length (retained s)).
    + apply submseteq_length, NoDup_submseteq; [apply NoDup_snapshots|].
      intros n Hn. by apply Hiff.
    + unfold retained. rewrite length_take. lia.
  - intros pre v post Hvict Hpre Hv.
    rewrite cleanup_old_backups_spec. cbn [snd]. rewrite Hvict.
    destruct (remove_all_stops refused backup_dir pre v post s) as (_ & H1 & H2);
      [rewrite <- Hvict; apply NoDup_victims| |done|by split].
    intros n Hn. destruct (Hpre n Hn) as (? & ? & _). by split.
Qed.

Lemma cleanup_old_backups_retention_witness :
  ((_cleanup_old_backups (fun _ => false) eleven_backups).2
     !! path_join backup_dir "generations_20240301_000000.json" = None
   /\ (length (snapshots (_cleanup_old_backups (fun _ => false)
                            eleven_backups).2) <= 20)%nat)
  /\ ((_cleanup_old_backups
         (String.eqb (path_join backup_dir "generations_20240301_000000.json"))
         eleven_backups).2
        !! path_join backup_dir "generations_20240302_000000.json" = None
      /\ (_cleanup_old_backups
            (String.eqb (path_join backup_dir "generations_20240301_000000.json"))
            eleven_backups).2
           !! path_join backup_dir "generations_20240301_000000.json"
         = Some (FJson (VList []))).
Proof.
  assert (Hv : victims eleven_backups
               = ["generations_20240302_000000.json";
                  "generations_20240301_000000.json"])
    by (vm_compute; reflexivity).
  split.
  - pose proof (cleanup_old_backups_retention (fun _ => false) eleven_backups)
      as H.
    cbv zeta in H. destruct H as (_ & _ & _ & _ & _ & _ & _ & Hall & _).
    destruct Hall as (_ & Hlen & Hgone).
    { intros n Hn. rewrite Hv in Hn.
      apply elem_of_cons in Hn as [-> | Hn];
        [|apply list_elem_of_singleton in Hn as ->];
        (split; [reflexivity|split; [vm_compute; by eexists|vm_compute; reflexivity]]). }
    split; [|exact Hlen]. apply Hgone. rewrite Hv. apply elem_of_cons. right.
    by apply list_elem_of_singleton.
  - pose proof (cleanup_old_backups_retention
                  (String.eqb (path_join backup_dir
                                 "generations_20240301_000000.json"))
                  eleven_backups) as H.
    cbv zeta in H. destruct H as (_ & _ & _ & _ & _ & _ & _ & _ & Hstop).
    destruct (Hstop ["generations_20240302_000000.json"]
                "generations_20240301_000000.json" [] Hv) as [Hgone Hleft].
    { intros n Hn. apply list_elem_of_singleton in Hn as ->.
      split; [reflexivity|split; [vm_compute; by eexists|vm_compute; reflexivity]]. }
    { left. reflexivity. }
    split.
    + apply Hgone. by apply list_elem_of_singleton.
    + rewrite Hleft by (by apply list_elem_of_singleton).
      vm_compute. reflexivity.
Defined.

End BackupRotation.

Section BackupRotationOrder.
Import PersistentStorage.

Lemma images_after_generations (i g : string) :
  String.prefix "images_" i = true -> String.prefix "generations_" g = true ->
  String.leb i g = false.
Proof.
  intros Hi Hg. destruct i as [|a i]; [done|]. destruct g as [|b g]; [done|].
  cbn [String.prefix] in Hi, Hg.
  destruct (ascii_dec "i" a) as [<-|]; [|done].
  destruct (ascii_dec "g" b) as [<-|]; [|done].
  reflexivity.
Qed.

Lemma leb_refl (x : string) : String.leb x x = true.
Proof. destruct (String.leb_total x x); done. Qed.

(** In a list sorted in reverse order, what sorts strictly after [x]
    stands before [x]. *)
Lemma sorted_desc_before (l1 l2 : list string) (x y : string) :
  StronglySorted desc (l1 ++ x :: l2) -> y ∈ (l1 ++ x :: l2)%list ->
  String.leb y x = false -> y ∈ l1.
Proof.
  intros Hs Hin Hlt. apply elem_of_app in Hin as [|Hin]; [done|].
  apply elem_of_cons in Hin as [->|Hin]; [by rewrite leb_refl in Hlt|].
  exfalso.
  assert (Hd : desc x y).
  { apply (sorted_app_desc (l1 ++ [x]) l2); [|apply elem_of_app; right; by left|done].
    by rewrite <- List.app_assoc. }
  unfold desc in Hd. congruence.
Qed.

(** With 20 image snapshots no generation snapshot is among the first 20
    names in reverse order. *)
Lemma generation_snapshot_victim (s : fs) (g : string) :
  (20 <= length (image_snapshots (snapshots s)))%nat ->
  String.prefix "generations_" g = true -> g ∈ snapshots s -> g ∈ victims s.
Proof.
  intros Hlen Hg Hin.
  destruct (kept_or_victim s g Hin) as [Hkept|]; [|done]. exfalso.
  unfold retained in Hkept.
  apply list_elem_of_lookup in Hkept as [i Hi].
  apply lookup_take_Some in Hi as [Hi Hlt].
  apply list_elem_of_split_length in Hi as (l1 & l2 & Hl & ->).
  assert (Hsub : image_snapshots (snapshots s) ⊆ l1).
  { intros y Hy. unfold image_snapshots in Hy.
    apply elem_of_list_filter_bool in Hy as [Hpre Hy].
    apply (sorted_desc_before l1 l2 g y).
    - rewrite <- Hl. apply sort_reverse_sorted.
    - rewrite <- Hl. by rewrite sort_reverse_perm.
    - by apply images_after_generations. }
  assert (Hle : (length (image_snapshots (snapshots s)) <= length l1)%nat).
  { apply submseteq_length, NoDup_submseteq; [|done].
    apply NoDup_list_filter_bool, NoDup_snapshots. }
  lia.
Qed.

(** X30: the retention goes by the names, not by the collections or the
    timestamps: every [images_] name sorts after every [generations_]
    name, so once the backups directory holds 20 image snapshots each
    generation snapshot is beyond the first 20, the newest included, and
    the cleanup removes it whenever every removal succeeds. *)
Theorem generation_snapshots_starve (refused : string -> bool) (s : fs)
    (g : string) :
  (20 <= length (image_snapshots (snapshots s)))%nat ->
  String.prefix "generations_" g = true ->
  g ∈ snapshots s ->
  g ∈ victims s
  /\ (forall i, i ∈ retained s -> String.prefix "generations_" i = false)
  /\ ((forall n, n ∈ victims s -> removable refused s n) ->
      (_cleanup_old_backups refused s).2 !! path_join backup_dir g = None).
Proof.
  intros Hlen Hg Hin.
  split; [by apply generation_snapshot_victim|]. split.
  - intros i Hi. destruct (String.prefix "generations_" i) eqn:E; [|done].
    exfalso. apply (retained_not_victim s i Hi).
    apply generation_snapshot_victim; [done|done|by apply retained_snapshots].
  - intros Hrem. rewrite cleanup_old_backups_spec. cbn [snd].
    destruct (remove_all_removes refused backup_dir (victims s) s
                (NoDup_victims s)) as [_ Hgone].
    { intros n Hn. destruct (Hrem n Hn) as (? & ? & _). by split. }
    apply Hgone. by apply generation_snapshot_victim.
Qed.

Lemma generation_snapshots_starve_witness :
  (_cleanup_old_backups (fun _ => false) twenty_backups).2
    !! path_join backup_dir "generations_20240320_000000.json" = None.
Proof.
  refine (proj2 (proj2 (generation_snapshots_starve (fun _ => false)
                          twenty_backups "generations_20240320_000000.json"
                          _ _ _)) _).
  - vm_compute. lia.
  - reflexivity.
  - apply elem_of_snapshots. split; [reflexivity|].
    apply listed_file; [reflexivity|]. vm_compute. by eexists.
  - apply Forall_forall.
    set (v := victims twenty_backups). vm_compute in v. subst v.
    repeat (constructor;
            [split; [reflexivity|split; [vm_compute; by eexists
                                        |vm_compute; reflexivity]]|]).
    constructor.
Defined.

End BackupRotationOrder.

(** ** What the operations leave alone *)

Section DurableStoreFrames.
Import PersistentStorage.

Lemma preserves_ret {A} (P : string -> Prop) (a : A) : preserves P (ret a).
Proof. by intros s q _. Qed.

Lemma preserves_raise {A} (P : string -> Prop) (e : exn) :
  preserves P (@raise fs A e).
Proof. by intros s q _. Qed.

Lemma preserves_bind {A B} (P : string -> Prop) (m : M fs A) (k : A -> M fs B) :
  preserves P m -> (forall a, preserves P (k a)) -> preserves P (bind m k).
Proof.
  intros Hm Hk s q Hq. unfold bind. specialize (Hm s q Hq).
  destruct (m s) as [[a|e] s1]; cbn [snd] in *; [|done].
  by rewrite (Hk a s1 q Hq).
Qed.

Lemma preserves_try_except {A} (P : string -> Prop) (m : M fs A)
    (h : exn -> M fs A) :
  preserves P m -> (forall e, preserves P (h e)) -> preserves P (try_except m h).
Proof.
  intros Hm Hh s q Hq. unfold try_except. specialize (Hm s q Hq).
  destruct (m s) as [[a|e] s1]; cbn [snd] in *; [done|].
  by rewrite (Hh e s1 q Hq).
Qed.

Lemma preserves_read (P : string -> Prop) (p : string) (d : value) :
  preserves P (_read_json_safe p d).
Proof. intros s q _. by rewrite read_json_safe_pure. Qed.

Lemma preserves_write (P : string -> Prop) (w : write_fault) (p : string)
    (data : value) :
  (forall q, P q -> q <> p /\ q <> p +:+ ".tmp" /\ q <> p +:+ ".backup") ->
  preserves P (_write_json_atomic w p data).
Proof.
  intros HP s q Hq. destruct (HP q Hq) as (H1 & H2 & H3).
  by apply write_json_atomic_frame.
Qed.

Lemma preserves_remove_all (P : string -> Prop) (refused : string -> bool)
    (dir : string) (names : list string) :
  (forall q n, P q -> q <> path_join dir n) ->
  preserves P (remove_all refused dir names).
Proof. intros HP s q Hq. apply remove_all_frame. intros n _. by apply HP. Qed.

Lemma in_backup_dir_app (p x : string) :
  in_backup_dir p -> in_backup_dir (p +:+ x).
Proof.
  intros [name ->]. exists (name +:+ x). unfold path_join.
  by rewrite !append_assoc.
Qed.

Lemma outside_backup_dir (q name : string) :
  ~ in_backup_dir q ->
  q <> path_join backup_dir name
  /\ q <> path_join backup_dir name +:+ ".tmp"
  /\ q <> path_join backup_dir name +:+ ".backup".
Proof.
  intros Hq. repeat split; intros ->; apply Hq;
    [|apply in_backup_dir_app|apply in_backup_dir_app]; by eexists.
Qed.

Lemma preserves_cleanup_old_backups (refused : string -> bool) :
  preserves (fun q => ~ in_backup_dir q) (_cleanup_old_backups refused).
Proof.
  unfold _cleanup_old_backups.
  apply preserves_try_except; [|intros; apply preserves_ret].
  apply preserves_bind; [by intros s q _|]. intros names.
  apply preserves_remove_all. intros q n Hq ->. apply Hq. by eexists.
Qed.

Lemma preserves_create_backup (wi wg : write_fault)
    (refused : string -> bool) (timestamp : string) :
  preserves (fun q => ~ in_backup_dir q)
    (_create_backup wi wg refused timestamp).
Proof.
  unfold _create_backup.
  apply preserves_try_except; [|intros; apply preserves_ret].
  apply preserves_bind; [apply preserves_read|]. intros images.
  apply preserves_bind;
    [apply preserves_write; intros q Hq; by apply outside_backup_dir|]. intros _.
  apply preserves_bind; [apply preserves_read|]. intros generations.
  apply preserves_bind;
    [apply preserves_write; intros q Hq; by apply outside_backup_dir|]. intros _.
  apply preserves_cleanup_old_backups.
Qed.

(** A [try] whose handler only logs returns normally. *)
Lemma try_except_logs (m : M fs unit) (s : fs) :
  (try_except m (fun _ => ret tt) s).1 = Returns tt.
Proof. unfold try_except. destruct (m s) as [[u|e] s']; [by destruct u|done]. Qed.

Lemma create_backup_returns (wi wg : write_fault) (refused : string -> bool)
    (timestamp : string) (s : fs) :
  (_create_backup wi wg refused timestamp s).1 = Returns tt.
Proof. apply try_except_logs. Qed.

(** The data files lie outside the backups directory. *)
Lemma data_file_outside (p x : string) :
  p = images_file \/ p = users_file \/ p = generations_file ->
  ~ in_backup_dir (p +:+ x).
Proof.
  intros Hp [name Heq].
  destruct Hp as [-> | [-> | ->]]; vm_compute in Heq; discriminate.
Qed.

End DurableStoreFrames.

(** ** The atomic write and [save_image] *)

Section AtomicWriteExtras.
Import PersistentStorage.

(** X14: A write without fault returns; the target then holds the new data, the
    temporary file is gone, the [.backup] holds what the target held (and
    is left alone when there was no target), and a read returns the data
    written. *)
Theorem atomic_write_installs_and_backs_up (p : string) (data d : value) (s : fs) :
  exists s',
    _write_json_atomic NoFault p data s = (Returns tt, s')
    /\ s' !! p = Some (FJson data)
    /\ s' !! (p +:+ ".tmp") = None
    /\ s' !! (p +:+ ".backup")
       = match s !! p with
         | Some c => Some c
         | None => s !! (p +:+ ".backup")
         end
    /\ _read_json_safe p d s' = (Returns data, s').
Proof.
  destruct (write_json_atomic_ok p data s) as (s' & Hw & Hp & Ht & Hb).
  exists s'. repeat split; try done. by rewrite read_json_safe_spec, Hp.
Qed.

(** X15: Of two writes in a row the first is the recovery point of the second:
    the [.backup] holds the data written first, and a read falls back to it
    when the target no longer parses. *)
Theorem previous_version_recoverable (p : string) (d1 d2 d : value) (s : fs) :
  let s2 := (_write_json_atomic NoFault p d2
               (_write_json_atomic NoFault p d1 s).2).2 in
  s2 !! p = Some (FJson d2)
  /\ s2 !! (p +:+ ".backup") = Some (FJson d1)
  /\ (_read_json_safe p d (<[p := FBad]> s2)).1 = Returns d1.
Proof.
  cbv zeta.
  destruct (write_json_atomic_ok p d1 s) as (s1 & Hw1 & Hp1 & _ & _).
  rewrite Hw1. cbn [snd].
  destruct (write_json_atomic_ok p d2 s1) as (s2 & Hw2 & Hp2 & _ & Hb2).
  rewrite Hw2. cbn [snd]. rewrite Hp1 in Hb2.
  repeat split; [done|done|].
  rewrite read_json_safe_spec. cbn [fst].
  rewrite lookup_insert_eq, lookup_insert_ne by apply not_eq_sym, backup_ne_target.
  by rewrite Hb2.
Qed.

(** X16: Whatever the fault and whether it returns or raises,
    [_write_json_atomic] changes no file but the target, its temporary file
    and its [.backup]. *)
Theorem atomic_write_touches_three_paths (w : write_fault) (p : string)
    (data : value) (s : fs) (q : string) :
  q <> p -> q <> p +:+ ".tmp" -> q <> p +:+ ".backup" ->
  (_write_json_atomic w p data s).2 !! q = s !! q.
Proof. apply write_json_atomic_frame. Qed.

Lemma atomic_write_touches_three_paths_witness :
  (_write_json_atomic ReplaceFails images_file (VList [])
     ({[ images_file := FJson (VList [VStr "a"]);
         generations_file := FJson (VList [VStr "g"]) ]} : fs)).2
    !! generations_file
  = Some (FJson (VList [VStr "g"])).
Proof.
  rewrite (atomic_write_touches_three_paths ReplaceFails images_file (VList [])
             ({[ images_file := FJson (VList [VStr "a"]);
                 generations_file := FJson (VList [VStr "g"]) ]} : fs)
             generations_file); [by vm_compute|discriminate..].
Defined.

End AtomicWriteExtras.

Section SaveImageFacts.
Import PersistentStorage.

(** A read always returns, and leaves the files alone. *)
Lemma read_json_safe_returns (p : string) (d : value) (s : fs) :
  exists v, _read_json_safe p d s = (Returns v, s).
Proof. rewrite read_json_safe_spec. by eexists. Qed.

Lemma get_all_images_list (s : fs) (l : list value) :
  (_read_json_safe images_file (VList []) s).1 = Returns (VList l) ->
  get_all_images s = (Returns (VList l), s).
Proof.
  intros H. unfold get_all_images, bind.
  destruct (read_json_safe_returns images_file (VList []) s) as [v Hv].
  rewrite Hv in *. cbn [fst] in H. by injection H as ->.
Qed.

Lemma read_of_target (p : string) (d v : value) (s : fs) :
  s !! p = Some (FJson v) -> (_read_json_safe p d s).1 = Returns v.
Proof. intros H. by rewrite read_json_safe_spec, H. Qed.

(** [save_image], its main write without fault: the state it leaves. *)
Lemma save_image_ok (wi wg : write_fault) (refused : string -> bool)
    (timestamp : string) (image_metadata : value) (s : fs) (l : list value) :
  (_read_json_safe images_file (VList []) s).1 = Returns (VList l) ->
  (exists fields, image_metadata = VDict fields) ->
  exists s',
    save_image NoFault wi wg refused timestamp image_metadata s
    = (Returns tt, s')
    /\ s' !! images_file = Some (FJson (VList (l ++ [image_metadata])))
    /\ s' !! (images_file +:+ ".backup")
       = match s !! images_file with
         | Some c => Some c
         | None => s !! (images_file +:+ ".backup")
         end
    /\ forall q, ~ in_backup_dir q -> q <> images_file ->
                 q <> images_file +:+ ".tmp" -> q <> images_file +:+ ".backup" ->
                 s' !! q = s !! q.
Proof.
  intros Hread [fields ->]. unfold save_image, try_except, bind.
  destruct (read_json_safe_returns images_file (VList []) s) as [v Hv].
  rewrite Hv in *. cbn [fst] in Hread. injection Hread as ->.
  unfold py_append, ret at 1. cbv beta iota.
  set (image_metadata := VDict fields).
  destruct (write_json_atomic_ok images_file (VList (l ++ [image_metadata])) s)
    as (s1 & Hw & Hp & Ht & Hb).
  pose proof (write_json_atomic_frame NoFault images_file
                (VList (l ++ [image_metadata])) s) as Hframe.
  rewrite Hw in Hframe |- *. cbn [snd] in Hframe.
  unfold py_get, image_metadata at 1, ret at 1. cbv beta iota.
  unfold py_len, ret at 1. cbv beta iota.
  destruct (length (l ++ [image_metadata]) mod 10 =? 0)%nat.
  - pose proof (create_backup_returns wi wg refused timestamp s1) as Hret.
    pose proof (preserves_create_backup wi wg refused timestamp s1) as Hpres.
    destruct (_create_backup wi wg refused timestamp s1) as [r s2].
    cbn [fst snd] in *. subst r.
    exists s2. split; [done|].
    assert (Hout : forall x, ~ in_backup_dir (images_file +:+ x)).
    { intros x. apply data_file_outside. by left. }
    split; [rewrite Hpres; [done|apply (Hout "")]|].
    split; [rewrite Hpres; [done|apply Hout]|].
    intros q Hq H1 H2 H3. rewrite Hpres by done. by apply Hframe.
  - exists s1. unfold ret. repeat split; try done.
    intros q _ H1 H2 H3. by apply Hframe.
Qed.

End SaveImageFacts.

Section SaveImageExtras.
Import PersistentStorage.

(** X17: [save_image] of a dict whose write succeeds returns normally, whatever
    happens to the snapshot it may trigger: the collection then is the
    former one with the new record at its end, the former images file is
    the [.backup], and the generations file is untouched. *)
Theorem save_image_appends (wi wg : write_fault) (refused : string -> bool)
    (timestamp : string) (image_metadata : value) (s : fs) (l : list value) :
  (_read_json_safe images_file (VList []) s).1 = Returns (VList l) ->
  (exists fields, image_metadata = VDict fields) ->
  exists s',
    save_image NoFault wi wg refused timestamp image_metadata s
    = (Returns tt, s')
    /\ (get_all_images s').1 = Returns (VList (l ++ [image_metadata]))
    /\ (forall c, s !! images_file = Some c ->
                  s' !! (images_file +:+ ".backup") = Some c)
    /\ s' !! generations_file = s !! generations_file.
Proof.
  intros Hread Hdict.
  destruct (save_image_ok wi wg refused timestamp image_metadata s l Hread Hdict)
    as (s' & Hsave & Hp & Hb & Hframe).
  exists s'. split; [done|]. split; [|split].
  - rewrite (get_all_images_list s' (l ++ [image_metadata])); [done|].
    by apply read_of_target.
  - intros c Hc. by rewrite Hb, Hc.
  - apply Hframe; [|discriminate..].
    apply (data_file_outside generations_file ""). tauto.
Qed.

Lemma save_image_appends_witness :
  (get_all_images
     (save_image NoFault NoFault NoFault (fun _ => false) "20240301_000000" (VDict [("id", VStr "b")])
        ({[ images_file := FJson (VList [VDict [("id", VStr "a")]]) ]} : fs)).2).1
  = Returns (VList [VDict [("id", VStr "a")]; VDict [("id", VStr "b")]]).
Proof.
  destruct (save_image_appends NoFault NoFault (fun _ => false) "20240301_000000"
              (VDict [("id", VStr "b")])
              ({[ images_file := FJson (VList [VDict [("id", VStr "a")]]) ]} : fs)
              [VDict [("id", VStr "a")]]) as (s' & Hs & Hall & _);
    [by vm_compute|by eexists|].
  rewrite Hs. exact Hall.
Defined.

(** X18: When the stored collection is not a list (the file holds a JSON object,
    a string, a number), [save_image] raises [AttributeError] at the
    [append] and writes nothing. *)
Theorem save_image_needs_a_list (w wi wg : write_fault)
    (refused : string -> bool) (timestamp : string)
    (image_metadata stored : value) (s : fs) :
  (_read_json_safe images_file (VList []) s).1 = Returns stored ->
  (forall l, stored <> VList l) ->
  save_image w wi wg refused timestamp image_metadata s
  = (Raises AttributeError, s).
Proof.
  intros Hread Hnl. unfold save_image, try_except, bind.
  destruct (read_json_safe_returns images_file (VList []) s) as [v Hv].
  rewrite Hv in *. cbn [fst] in Hread. injection Hread as ->.
  destruct stored as [| | | |l|]; try done. by destruct (Hnl l).
Qed.

Lemma save_image_needs_a_list_witness :
  save_image NoFault NoFault NoFault (fun _ => false) "20240301_000000" (VDict [])
    ({[ images_file := FJson (VDict []) ]} : fs)
  = (Raises AttributeError, {[ images_file := FJson (VDict []) ]}).
Proof.
  apply (save_image_needs_a_list NoFault NoFault NoFault (fun _ => false) "20240301_000000"
           (VDict []) (VDict [])); [by vm_compute|discriminate].
Defined.

(** X19: [_create_backup] never raises, whatever the faults of its writes, and
    changes no file outside the backups directory: the collections and
    their [.backup] files are as they were. *)
Theorem create_backup_is_harmless (wi wg : write_fault)
    (refused : string -> bool) (timestamp : string)
    (s : fs) :
  (_create_backup wi wg refused timestamp s).1 = Returns tt
  /\ (forall q, ~ in_backup_dir q ->
                (_create_backup wi wg refused timestamp s).2 !! q = s !! q)
  /\ (_read_json_safe images_file (VList [])
        (_create_backup wi wg refused timestamp s).2).1
     = (_read_json_safe images_file (VList []) s).1
  /\ (_read_json_safe generations_file (VList [])
        (_create_backup wi wg refused timestamp s).2).1
     = (_read_json_safe generations_file (VList []) s).1.
Proof.
  pose proof (preserves_create_backup wi wg refused timestamp s) as Hpres.
  split; [apply create_backup_returns|]. split; [done|].
  split; apply read_json_safe_ext; apply Hpres;
    first [ apply (data_file_outside images_file ""); tauto
          | apply (data_file_outside images_file ".backup"); tauto
          | apply (data_file_outside generations_file ""); tauto
          | apply (data_file_outside generations_file ".backup"); tauto ].
Qed.

Lemma create_backup_is_harmless_witness :
  (_create_backup DumpFails ReplaceFails (fun _ => false) "20240301_000000"
     ({[ images_file := FJson (VList [VStr "a"]) ]} : fs)).2 !! images_file
  = Some (FJson (VList [VStr "a"])).
Proof.
  rewrite (proj1 (proj2 (create_backup_is_harmless DumpFails ReplaceFails (fun _ => false)
                           "20240301_000000"
                           ({[ images_file := FJson (VList [VStr "a"]) ]} : fs)))
             images_file); [by vm_compute|].
  intros [name Hname]. vm_compute in Hname. discriminate.
Defined.

End SaveImageExtras.

(** ** The owner's path of [update_image_favorite] *)

Section FavoriteFacts.
Import PersistentStorage.

Lemma assoc_get_set (k : string) (v : value) (fields : list (string * value)) :
  assoc_get k (assoc_set k v fields) = Some v.
Proof.
  induction fields as [|[k' v'] fields IH]; cbn [assoc_set assoc_get].
  - by rewrite String.eqb_refl.
  - destruct (String.eqb k' k) eqn:E; cbn [assoc_get].
    + by rewrite String.eqb_refl.
    + by rewrite E.
Qed.

Lemma assoc_get_set_ne (k k0 : string) (v : value)
    (fields : list (string * value)) :
  k0 <> k -> assoc_get k0 (assoc_set k v fields) = assoc_get k0 fields.
Proof.
  intros Hne. induction fields as [|[k' v'] fields IH]; cbn [assoc_set assoc_get].
  - apply String.eqb_neq in Hne. rewrite String.eqb_sym in Hne. by rewrite Hne.
  - destruct (String.eqb k' k) eqn:E; cbn [assoc_get].
    + apply String.eqb_eq in E as ->.
      assert (String.eqb k k0 = false) as ->; [|done].
      apply String.eqb_neq. congruence.
    + by rewrite IH.
Qed.

Lemma matches_eq_str image_id user_id fields :
  matches image_id user_id (VDict fields) ->
  eq_str (default VNull (assoc_get "id" fields)) image_id = true
  /\ eq_str (default VNull (assoc_get "user_id" fields)) user_id = true.
Proof.
  intros [Hid Ho]. cbn [record_id record_owner] in *.
  rewrite Hid, Ho. cbn. by rewrite !String.eqb_refl.
Qed.

(** The loop passes the dicts that do not match and stops at the first
    that does. *)
Lemma favorite_loop_finds w image_id user_id is_favorite pre fields post :
  Forall (fun r => (exists f, r = VDict f) /\ ~ matches image_id user_id r) pre ->
  matches image_id user_id (VDict fields) ->
  forall seen s,
    favorite_loop w image_id user_id is_favorite seen
      (pre ++ VDict fields :: post) s
    = match _write_json_atomic w images_file
              (VList ((seen ++ pre)
                        ++ VDict (assoc_set "is_favorite" (VBool is_favorite) fields)
                        :: post)) s with
      | (Returns _, s') => (Returns true, s')
      | (Raises e, s') => (Raises e, s')
      end.
Proof.
  intros Hpre Hm. induction Hpre as [|r pre [[f ->] Hr] _ IH]; intros seen s.
  - rewrite app_nil_r. cbn [app favorite_loop]. unfold bind, py_get, ret.
    cbv beta iota.
    destruct (matches_eq_str _ _ _ Hm) as [-> ->]. cbn [andb].
    unfold py_setitem, ret. cbv beta iota.
    by destruct (_write_json_atomic _ _ _ _) as [[[]|e] s'].
  - cbn [app]. rewrite favorite_loop_skip by done.
    rewrite IH.
    by replace ((seen ++ [VDict f]) ++ pre)%list with (seen ++ VDict f :: pre)%list
      by (by rewrite <- List.app_assoc).
Qed.

End FavoriteFacts.

Section FavoriteExtras.
Import PersistentStorage.

(** X20: The owner's call, its write succeeding, returns [True]: the first
    stored record with that id and owner has its [is_favorite] set, every
    other record and the order of the collection are as they were, and the
    updated record keeps its id and owner. *)
Theorem favorite_by_owner_updates_first_match (image_id user_id : string)
    (is_favorite : bool) (pre post : list value)
    (fields : list (string * value)) (s : fs) :
  (_read_json_safe images_file (VList []) s).1
  = Returns (VList (pre ++ VDict fields :: post)) ->
  Forall (fun r => (exists f, r = VDict f) /\ ~ matches image_id user_id r) pre ->
  matches image_id user_id (VDict fields) ->
  let updated := VDict (assoc_set "is_favorite" (VBool is_favorite) fields) in
  exists s',
    update_image_favorite NoFault image_id user_id is_favorite s
    = (Returns true, s')
    /\ (get_all_images s').1 = Returns (VList (pre ++ updated :: post))
    /\ assoc_get "is_favorite"
         (assoc_set "is_favorite" (VBool is_favorite) fields)
       = Some (VBool is_favorite)
    /\ matches image_id user_id updated.
Proof.
  intros Hread Hpre Hm. cbv zeta.
  unfold update_image_favorite, try_except, bind.
  destruct (read_json_safe_returns images_file (VList []) s) as [v Hv].
  rewrite Hv in *. cbn [fst] in Hread. injection Hread as ->.
  unfold py_iter, ret at 1. cbv beta iota.
  rewrite (favorite_loop_finds NoFault image_id user_id is_favorite pre fields post)
    by done.
  cbn [app].
  destruct (write_json_atomic_ok images_file
              (VList (pre ++ VDict (assoc_set "is_favorite" (VBool is_favorite) fields)
                        :: post)) s) as (s' & Hw & Hp & _).
  rewrite Hw. exists s'. split; [done|]. split; [|split].
  - rewrite (get_all_images_list s'
               (pre ++ VDict (assoc_set "is_favorite" (VBool is_favorite) fields)
                  :: post)); [done|].
    by apply read_of_target.
  - apply assoc_get_set.
  - destruct Hm as [Hid Ho]. split; cbn [record_id record_owner] in *.
    + by rewrite assoc_get_set_ne.
    + by rewrite assoc_get_set_ne.
Qed.

Lemma favorite_by_owner_updates_first_match_witness :
  (update_image_favorite NoFault "b" "u2" true
     ({[ images_file :=
           FJson (VList [VDict [("id", VStr "a"); ("user_id", VStr "u1")];
                         VDict [("id", VStr "b"); ("user_id", VStr "u2")]]) ]} : fs)).1
  = Returns true.
Proof.
  destruct (favorite_by_owner_updates_first_match "b" "u2" true
              [VDict [("id", VStr "a"); ("user_id", VStr "u1")]] []
              [("id", VStr "b"); ("user_id", VStr "u2")]
              ({[ images_file :=
                    FJson (VList [VDict [("id", VStr "a"); ("user_id", VStr "u1")];
                                  VDict [("id", VStr "b"); ("user_id", VStr "u2")]]) ]} : fs))
    as (s' & -> & _).
  - by vm_compute.
  - constructor; [|constructor]. split; [by eexists|].
    intros [Hid _]. vm_compute in Hid. discriminate.
  - split; reflexivity.
  - reflexivity.
Defined.

(** X21: When the write of the owner's update fails, [update_image_favorite]
    swallows the error and returns [False]; a failure of the open or of the
    dump leaves the stored collection as it was. *)
Theorem favorite_write_failure_returns_false (w : write_fault)
    (image_id user_id : string) (is_favorite : bool) (pre post : list value)
    (fields : list (string * value)) (s : fs) :
  w = OpenFails \/ w = DumpFails \/ w = ReplaceFails ->
  (_read_json_safe images_file (VList []) s).1
  = Returns (VList (pre ++ VDict fields :: post)) ->
  Forall (fun r => (exists f, r = VDict f) /\ ~ matches image_id user_id r) pre ->
  matches image_id user_id (VDict fields) ->
  let res := update_image_favorite w image_id user_id is_favorite s in
  res.1 = Returns false
  /\ (w <> ReplaceFails ->
      (_read_json_safe images_file (VList []) res.2).1
      = Returns (VList (pre ++ VDict fields :: post))).
Proof.
  intros Hw Hread Hpre Hm. cbv zeta.
  destruct (read_json_safe_returns images_file (VList []) s) as [v Hv].
  rewrite Hv in Hread. cbn [fst] in Hread. injection Hread as ->.
  set (data := VList (pre ++ VDict (assoc_set "is_favorite" (VBool is_favorite) fields)
                        :: post)).
  destruct (write_json_atomic_fault w images_file data s) as [s' Hraise]; [tauto|].
  assert (Hrun : update_image_favorite w image_id user_id is_favorite s
                 = (Returns false, s')).
  { unfold update_image_favorite, try_except, bind. rewrite Hv.
    unfold py_iter, ret at 1. cbv beta iota.
    rewrite (favorite_loop_finds w image_id user_id is_favorite pre fields post)
      by done.
    cbn [app]. fold data. by rewrite Hraise. }
  rewrite Hrun. cbn [fst snd]. split; [done|].
  intros Hnr.
  transitivity ((_read_json_safe images_file (VList []) s).1); [|by rewrite Hv].
  destruct (write_json_atomic_raises _ _ _ _ _ _ Hraise) as (_ & _ & Hsame).
  assert (Hs : s' !! images_file = s !! images_file
               /\ s' !! (images_file +:+ ".backup")
                  = s !! (images_file +:+ ".backup")).
  { destruct w; try done; by destruct (s !! images_file). }
  destruct Hs as [Hs1 Hs2]. by apply read_json_safe_ext.
Qed.

Lemma favorite_write_failure_returns_false_witness :
  (update_image_favorite DumpFails "a" "u1" true
     ({[ images_file :=
           FJson (VList [VDict [("id", VStr "a"); ("user_id", VStr "u1")]]) ]} : fs)).1
  = Returns false.
Proof.
  refine (proj1 (favorite_write_failure_returns_false DumpFails "a" "u1" true
                   [] [] [("id", VStr "a"); ("user_id", VStr "u1")]
                   ({[ images_file :=
                         FJson (VList [VDict [("id", VStr "a"); ("user_id", VStr "u1")]]) ]} : fs)
                   _ _ _ _)).
  - right. by left.
  - by vm_compute.
  - constructor.
  - split; reflexivity.
Defined.

End FavoriteExtras.

(** ** Listings *)

Section ListingFacts.
Import PersistentStorage.

(** Over dicts the loop of [get_user_images] is a filter. *)
Lemma user_images_loop_dicts (user_id : string) (items : list value) (s : fs) :
  Forall (fun r => exists f, r = VDict f) items ->
  user_images_loop user_id items s = (Returns (owned_by user_id items), s).
Proof.
  induction 1 as [|r items [f ->] _ IH]; [done|].
  cbn [user_images_loop]. unfold bind, py_get, ret at 1. cbv beta iota.
  rewrite IH. unfold ret, owned_by. cbn [List.filter record_owner].
  by destruct (eq_str _ _).
Qed.

(** An item that is not a dict makes the loop raise. *)
Lemma user_images_loop_not_dict (user_id : string) (items : list value)
    (r : value) (s : fs) :
  r ∈ items -> (forall f, r <> VDict f) ->
  user_images_loop user_id items s = (Raises AttributeError, s).
Proof.
  intros Hin Hnd. induction items as [|img items IH]; [by apply elem_of_nil in Hin|].
  cbn [user_images_loop]. unfold bind.
  destruct img as [| | | | |f]; try done.
  apply elem_of_cons in Hin as [-> | Hin]; [by destruct (Hnd f)|].
  unfold py_get, ret at 1. cbv beta iota. by rewrite IH.
Qed.

Lemma get_user_images_dicts (user_id : string) (l : list value) (s : fs) :
  (_read_json_safe images_file (VList []) s).1 = Returns (VList l) ->
  Forall (fun r => exists f, r = VDict f) l ->
  get_user_images user_id s = (Returns (VList (owned_by user_id l)), s).
Proof.
  intros Hread Hd. unfold get_user_images, bind.
  rewrite (get_all_images_list s l Hread).
  unfold py_iter, ret at 1. cbv beta iota.
  by rewrite user_images_loop_dicts.
Qed.

Lemma owned_by_app (user_id : string) (l1 l2 : list value) :
  owned_by user_id (l1 ++ l2) = (owned_by user_id l1 ++ owned_by user_id l2)%list.
Proof. apply List.filter_app. Qed.

End ListingFacts.

Section ListingExtras.
Import PersistentStorage.

(** X22: A saved image shows in its owner's listing and in no other: after a
    [save_image] whose write succeeds, [get_user_images] returns for the
    owner what it returned before followed by the new record, and for any
    other user what it returned before. *)
Theorem saved_image_listed_for_its_owner (wi wg : write_fault)
    (refused : string -> bool) (timestamp owner : string) (image_metadata : value) (l : list value)
    (s : fs) :
  (_read_json_safe images_file (VList []) s).1 = Returns (VList l) ->
  Forall (fun r => exists f, r = VDict f) l ->
  record_owner image_metadata = Some (VStr owner) ->
  exists s',
    save_image NoFault wi wg refused timestamp image_metadata s
    = (Returns tt, s')
    /\ (get_user_images owner s).1 = Returns (VList (owned_by owner l))
    /\ (get_user_images owner s').1
       = Returns (VList (owned_by owner l ++ [image_metadata]))
    /\ (forall u, u <> owner ->
                  (get_user_images u s').1 = (get_user_images u s).1).
Proof.
  intros Hread Hd Ho.
  assert (Hdict : exists fields, image_metadata = VDict fields)
    by (destruct image_metadata; try done; by eexists).
  destruct (save_image_ok wi wg refused timestamp image_metadata s l Hread Hdict)
    as (s' & Hsave & Hp & _).
  assert (Hread' : (_read_json_safe images_file (VList []) s').1
                   = Returns (VList (l ++ [image_metadata])))
    by by apply read_of_target.
  assert (Hd' : Forall (fun r => exists f, r = VDict f) (l ++ [image_metadata])).
  { apply Forall_app. split; [done|]. by constructor. }
  exists s'. split; [done|]. split; [|split].
  - by rewrite (get_user_images_dicts owner l s).
  - rewrite (get_user_images_dicts owner _ s' Hread' Hd'). cbn [fst].
    rewrite owned_by_app. unfold owned_by at 2. cbn [List.filter].
    rewrite Ho. cbn [default eq_str id]. by rewrite String.eqb_refl.
  - intros u Hu.
    rewrite (get_user_images_dicts u _ s' Hread' Hd'),
      (get_user_images_dicts u l s Hread Hd). cbn [fst].
    rewrite owned_by_app. unfold owned_by at 2. cbn [List.filter].
    rewrite Ho. cbn [default eq_str id].
    assert (String.eqb owner u = false) as ->
      by (apply String.eqb_neq; congruence).
    by rewrite app_nil_r.
Qed.

Lemma saved_image_listed_for_its_owner_witness :
  exists s',
    save_image NoFault NoFault NoFault (fun _ => false) "20240301_000000"
      (VDict [("id", VStr "b"); ("user_id", VStr "u2")])
      ({[ images_file :=
            FJson (VList [VDict [("id", VStr "a"); ("user_id", VStr "u1")]]) ]} : fs)
    = (Returns tt, s')
    /\ (get_user_images "u2" s').1
       = Returns (VList [VDict [("id", VStr "b"); ("user_id", VStr "u2")]]).
Proof.
  destruct (saved_image_listed_for_its_owner NoFault NoFault (fun _ => false) "20240301_000000"
              "u2" (VDict [("id", VStr "b"); ("user_id", VStr "u2")])
              [VDict [("id", VStr "a"); ("user_id", VStr "u1")]]
              ({[ images_file :=
                    FJson (VList [VDict [("id", VStr "a"); ("user_id", VStr "u1")]]) ]} : fs))
    as (s' & Hs & _ & Hl & _).
  - by vm_compute.
  - constructor; [by eexists|constructor].
  - reflexivity.
  - exists s'. split; [exact Hs|exact Hl].
Defined.

(** X23: One stored item that is not a dict breaks the listing of every user:
    [get_user_images] raises [AttributeError], whoever asks, and
    [get_all_images] still returns the collection. *)
Theorem malformed_record_breaks_every_listing (l : list value) (r : value)
    (s : fs) :
  (_read_json_safe images_file (VList []) s).1 = Returns (VList l) ->
  r ∈ l -> (forall f, r <> VDict f) ->
  get_all_images s = (Returns (VList l), s)
  /\ forall user_id, get_user_images user_id s = (Raises AttributeError, s).
Proof.
  intros Hread Hin Hnd. split; [by apply get_all_images_list|].
  intros user_id. unfold get_user_images, bind.
  rewrite (get_all_images_list s l Hread).
  unfold py_iter, ret at 1. cbv beta iota.
  by rewrite (user_images_loop_not_dict user_id l r s).
Qed.

Lemma malformed_record_breaks_every_listing_witness :
  get_user_images "u1"
    ({[ images_file :=
          FJson (VList [VDict [("user_id", VStr "u1")]; VStr "x"]) ]} : fs)
  = (Raises AttributeError,
     ({[ images_file :=
           FJson (VList [VDict [("user_id", VStr "u1")]; VStr "x"]) ]} : fs)).
Proof.
  refine (proj2 (malformed_record_breaks_every_listing
                   [VDict [("user_id", VStr "u1")]; VStr "x"] (VStr "x")
                   ({[ images_file :=
                         FJson (VList [VDict [("user_id", VStr "u1")]; VStr "x"]) ]} : fs)
                   _ _ _) "u1").
  - by vm_compute.
  - apply elem_of_cons. right. apply elem_of_cons. by left.
  - done.
Defined.

(** X24: [save_image] writes before its log line asks the record for its id:
    given a record that is not a dict it raises [AttributeError], yet the
    record is stored by then, and from then on [get_user_images] raises
    for every user. *)
Theorem save_image_stores_before_it_raises (wi wg : write_fault)
    (refused : string -> bool) (timestamp : string) (image_metadata : value) (l : list value) (s : fs) :
  (_read_json_safe images_file (VList []) s).1 = Returns (VList l) ->
  (forall fields, image_metadata <> VDict fields) ->
  exists s',
    save_image NoFault wi wg refused timestamp image_metadata s
    = (Raises AttributeError, s')
    /\ s' !! images_file = Some (FJson (VList (l ++ [image_metadata])))
    /\ forall user_id, get_user_images user_id s' = (Raises AttributeError, s').
Proof.
  intros Hread Hnd.
  destruct (read_json_safe_returns images_file (VList []) s) as [v Hv].
  rewrite Hv in Hread. cbn [fst] in Hread. injection Hread as ->.
  destruct (write_json_atomic_ok images_file (VList (l ++ [image_metadata])) s)
    as (s' & Hw & Hp & _).
  exists s'. split; [|split; [done|]].
  - unfold save_image, try_except, bind. rewrite Hv.
    unfold py_append, ret at 1. cbv beta iota. rewrite Hw.
    destruct image_metadata as [| | | | |fields]; try done.
    by destruct (Hnd fields).
  - intros user_id. unfold get_user_images, bind.
    rewrite (get_all_images_list s' (l ++ [image_metadata]))
      by by apply read_of_target.
    unfold py_iter, ret at 1. cbv beta iota.
    rewrite (user_images_loop_not_dict user_id _ image_metadata s'); [done| |done].
    apply elem_of_app. right. apply elem_of_cons. by left.
Qed.

Lemma save_image_stores_before_it_raises_witness :
  (save_image NoFault NoFault NoFault (fun _ => false) "20240301_000000" (VStr "x") (∅ : fs)).1
  = Raises AttributeError.
Proof.
  destruct (save_image_stores_before_it_raises NoFault NoFault (fun _ => false)
              "20240301_000000" (VStr "x") [] (∅ : fs)) as (s' & -> & _).
  - by vm_compute.
  - done.
  - reflexivity.
Defined.

(** X25: [get_all_images] has no handler of its own: when the images file is
    valid JSON holding [null], a boolean or a number, the [len] of its
    log line raises [TypeError]; the [.backup] is not consulted. *)
Theorem get_all_images_raises_on_scalar (v : value) (s : fs) :
  s !! images_file = Some (FJson v) ->
  v = VNull \/ (exists b, v = VBool b) \/ (exists n, v = VNum n) ->
  get_all_images s = (Raises TypeError, s)
  /\ forall user_id, get_user_images user_id s = (Raises TypeError, s).
Proof.
  intros Hs Hv.
  assert (Hall : get_all_images s = (Raises TypeError, s)).
  { unfold get_all_images, bind.
    destruct (read_json_safe_returns images_file (VList []) s) as [v' Hv'].
    pose proof (read_of_target images_file (VList []) v s Hs) as Hr.
    rewrite Hv' in *. cbn [fst] in Hr. injection Hr as ->.
    by destruct Hv as [-> | [[b ->] | [n ->]]]. }
  split; [done|]. intros user_id. unfold get_user_images, bind. by rewrite Hall.
Qed.

Lemma get_all_images_raises_on_scalar_witness :
  get_all_images ({[ images_file := FJson VNull;
                     images_file +:+ ".backup" := FJson (VList []) ]} : fs)
  = (Raises TypeError,
     ({[ images_file := FJson VNull;
         images_file +:+ ".backup" := FJson (VList []) ]} : fs)).
Proof.
  refine (proj1 (get_all_images_raises_on_scalar VNull
                   ({[ images_file := FJson VNull;
                       images_file +:+ ".backup" := FJson (VList []) ]} : fs)
                   _ _)).
  - by vm_compute.
  - by left.
Defined.

End ListingExtras.

(** ** Construction and generation records *)

Section InitializeFacts.
Import PersistentStorage.

(** One turn of the loop of [_initialize_files] on a file that exists. *)
Lemma initialize_loop_present (p : string) (d : value) (w : write_fault)
    (rest : list (string * value * write_fault)) (s : fs) :
  is_Some (s !! p) ->
  initialize_loop ((p, d, w) :: rest) s = initialize_loop rest s.
Proof.
  intros Hp. cbn [initialize_loop]. unfold bind, path_exists.
  by rewrite (bool_decide_eq_true_2 _ Hp).
Qed.

(** One turn on a missing file whose write succeeds. *)
Lemma initialize_loop_missing (p : string) (d : value)
    (rest : list (string * value * write_fault)) (s : fs) :
  s !! p = None ->
  exists s',
    initialize_loop ((p, d, NoFault) :: rest) s = initialize_loop rest s'
    /\ s' !! p = Some (FJson d)
    /\ forall q, q <> p -> q <> p +:+ ".tmp" -> s' !! q = s !! q.
Proof.
  intros Hp.
  destruct (write_json_atomic_ok p d s) as (s' & Hw & Hp' & _ & Hb).
  exists s'. split; [|split; [done|]].
  - cbn [initialize_loop]. unfold bind, path_exists.
    rewrite bool_decide_eq_false_2 by (rewrite Hp; by intros [? ?]).
    by rewrite Hw.
  - intros q Hq Hqt. destruct (decide (q = p +:+ ".backup")) as [-> | Hqb].
    + by rewrite Hb, Hp.
    + pose proof (write_json_atomic_frame NoFault p d s q Hq Hqt Hqb) as Hf.
      by rewrite Hw in Hf.
Qed.

(** One turn on a missing file whose write fails. *)
Lemma initialize_loop_fault (p : string) (d : value) (w : write_fault)
    (rest : list (string * value * write_fault)) (s : fs) :
  s !! p = None -> write_fails w ->
  exists s',
    initialize_loop ((p, d, w) :: rest) s = (Raises OSError, s')
    /\ forall q, q <> p +:+ ".tmp" -> s' !! q = s !! q.
Proof.
  intros Hp Hw.
  destruct (write_json_atomic_fault w p d s) as [s' Hraise];
    [unfold write_fails in Hw; tauto|].
  exists s'. split.
  - cbn [initialize_loop]. unfold bind, path_exists.
    rewrite bool_decide_eq_false_2 by (rewrite Hp; by intros [? ?]).
    by rewrite Hraise.
  - intros q Hqt.
    destruct (write_json_atomic_raises _ _ _ _ _ _ Hraise) as (_ & Hf & Hsame).
    rewrite Hp in Hsame.
    assert (Hs : s' !! p = s !! p
                 /\ s' !! (p +:+ ".backup") = s !! (p +:+ ".backup"))
      by (rewrite Hp; destruct w; exact Hsame).
    destruct Hs as [Hs1 Hs2].
    destruct (decide (q = p)) as [-> | Hq]; [done|].
    destruct (decide (q = p +:+ ".backup")) as [-> | Hqb]; [done|].
    by apply Hf.
Qed.

(** One turn, no fault: the file exists afterwards, with its former
    content if it had one, and only it and its temporary file change. *)
Lemma initialize_loop_step (p : string) (d : value)
    (rest : list (string * value * write_fault)) (s : fs) :
  exists s',
    initialize_loop ((p, d, NoFault) :: rest) s = initialize_loop rest s'
    /\ s' !! p = Some (default (FJson d) (s !! p))
    /\ forall q, q <> p -> q <> p +:+ ".tmp" -> s' !! q = s !! q.
Proof.
  destruct (s !! p) as [c|] eqn:Hp.
  - exists s. split; [|by rewrite Hp].
    apply initialize_loop_present. by rewrite Hp.
  - destruct (initialize_loop_missing p d rest s Hp) as (s' & H1 & H2 & H3).
    by exists s'.
Qed.

Lemma initialize_files_present (w1 w2 w3 : write_fault) (s : fs) :
  is_Some (s !! images_file) -> is_Some (s !! users_file) ->
  is_Some (s !! generations_file) ->
  _initialize_files w1 w2 w3 s = (Returns tt, s).
Proof.
  intros H1 H2 H3. unfold _initialize_files.
  by rewrite !initialize_loop_present.
Qed.

End InitializeFacts.

Section InitializeExtras.
Import PersistentStorage.

(** X26: [_initialize_files], its writes succeeding, returns with the three
    data files in place: a file that existed keeps its content, a missing
    one holds its empty default, and nothing else changes but the
    temporary files of the three.  Run again on the result it writes
    nothing, whatever the faults of the environment. *)
Theorem initialize_files_creates_only_missing (s : fs) :
  exists s',
    _initialize_files NoFault NoFault NoFault s = (Returns tt, s')
    /\ s' !! images_file = Some (default (FJson (VList [])) (s !! images_file))
    /\ s' !! users_file = Some (default (FJson (VDict [])) (s !! users_file))
    /\ s' !! generations_file
       = Some (default (FJson (VList [])) (s !! generations_file))
    /\ (forall q,
          q ∉ [images_file; users_file; generations_file;
               images_file +:+ ".tmp"; users_file +:+ ".tmp";
               generations_file +:+ ".tmp"] ->
          s' !! q = s !! q)
    /\ (forall w1 w2 w3, _initialize_files w1 w2 w3 s' = (Returns tt, s')).
Proof.
  unfold _initialize_files.
  destruct (initialize_loop_step images_file (VList [])
              [(users_file, VDict [], NoFault);
               (generations_file, VList [], NoFault)] s)
    as (s1 & E1 & P1 & F1).
  destruct (initialize_loop_step users_file (VDict [])
              [(generations_file, VList [], NoFault)] s1)
    as (s2 & E2 & P2 & F2).
  destruct (initialize_loop_step generations_file (VList []) [] s2)
    as (s3 & E3 & P3 & F3).
  exists s3. rewrite E1, E2, E3.
  assert (H3i : s3 !! images_file = s1 !! images_file)
    by (by rewrite F3, F2).
  assert (H3u : s3 !! users_file = s2 !! users_file) by (by rewrite F3).
  split; [done|]. split; [by rewrite H3i|]. split; [|split; [|split]].
  - by rewrite H3u, P2, F1.
  - by rewrite P3, F2, F1.
  - intros q Hq. rewrite !not_elem_of_cons in Hq.
    destruct Hq as (? & ? & ? & ? & ? & ? & _).
    by rewrite F3, F2, F1.
  - intros w1 w2 w3. apply initialize_files_present.
    + by rewrite H3i, P1.
    + by rewrite H3u, P2.
    + by rewrite P3.
Qed.

(** X27: With a failing disk (every write fails at its open, at its dump or at
    its final rename) and one of the three data files missing,
    [_initialize_files] raises [OSError]: construction of the store fails,
    and none of the three files is created or changed. *)
Theorem initialize_files_raises_on_failing_disk (w : write_fault) (s : fs) :
  write_fails w ->
  s !! images_file = None \/ s !! users_file = None
  \/ s !! generations_file = None ->
  exists s',
    __init__ w w w s = (Raises OSError, s')
    /\ s' !! images_file = s !! images_file
    /\ s' !! users_file = s !! users_file
    /\ s' !! generations_file = s !! generations_file.
Proof.
  intros Hw Hmiss. unfold __init__, _initialize_files.
  destruct (s !! images_file) as [ci|] eqn:Hi.
  - rewrite initialize_loop_present by (by rewrite Hi).
    destruct (s !! users_file) as [cu|] eqn:Hu.
    + rewrite initialize_loop_present by (by rewrite Hu).
      destruct (s !! generations_file) as [cg|] eqn:Hg;
        [by destruct Hmiss as [? | [? | ?]]|].
      destruct (initialize_loop_fault generations_file (VList []) w [] s Hg Hw)
        as (s' & E & F).
      exists s'. split; [done|]. by rewrite !F, Hi, Hu, Hg.
    + destruct (initialize_loop_fault users_file (VDict []) w
                  [(generations_file, VList [], w)] s Hu Hw) as (s' & E & F).
      exists s'. split; [done|]. by rewrite !F, Hi, Hu.
  - destruct (initialize_loop_fault images_file (VList []) w
                [(users_file, VDict [], w); (generations_file, VList [], w)]
                s Hi Hw) as (s' & E & F).
    exists s'. split; [done|]. by rewrite !F, Hi.
Qed.

Lemma initialize_files_raises_on_failing_disk_witness :
  (__init__ DumpFails DumpFails DumpFails
     ({[ images_file := FJson (VList []) ]} : fs)).1
  = Raises OSError.
Proof.
  destruct (initialize_files_raises_on_failing_disk DumpFails
              ({[ images_file := FJson (VList []) ]} : fs))
    as (s' & -> & _).
  - right. by left.
  - right. by left.
  - reflexivity.
Defined.

End InitializeExtras.

Section GenerationRecordExtras.
Import PersistentStorage.

(** X28: [save_generation_record], its write succeeding, appends one record
    to the stored generations: the earlier records keep their order, the
    new one carries the user, the image, the parameters and the id
    [user_id#time], and the images file is not touched. *)
Theorem generation_record_appended (t_id t_stamp user_id image_id : string)
    (params : value) (l : list value) (s : fs) :
  (_read_json_safe generations_file (VList []) s).1 = Returns (VList l) ->
  exists s' record,
    save_generation_record NoFault t_id t_stamp user_id image_id params s
    = (Returns tt, s')
    /\ (_read_json_safe generations_file (VList []) s').1
       = Returns (VList (l ++ [record]))
    /\ record_id record = Some (VStr (user_id +:+ "#" +:+ t_id))
    /\ record_owner record = Some (VStr user_id)
    /\ (exists fields, record = VDict fields
                       /\ assoc_get "image_id" fields = Some (VStr image_id)
                       /\ assoc_get "timestamp" fields = Some (VStr t_stamp)
                       /\ assoc_get "parameters" fields = Some params)
    /\ s' !! images_file = s !! images_file.
Proof.
  intros Hread.
  destruct (read_json_safe_returns generations_file (VList []) s) as [v Hv].
  rewrite Hv in Hread. cbn [fst] in Hread. injection Hread as ->.
  set (record := VDict [("id", VStr (user_id +:+ "#" +:+ t_id));
                        ("user_id", VStr user_id);
                        ("image_id", VStr image_id);
                        ("timestamp", VStr t_stamp);
                        ("parameters", params)]).
  destruct (write_json_atomic_ok generations_file (VList (l ++ [record])) s)
    as (s' & Hw & Hp & _).
  exists s', record. split; [|split; [|split; [|split; [|split]]]].
  - unfold save_generation_record, try_except, bind. rewrite Hv.
    unfold py_append, ret at 1. cbv beta iota. fold record. by rewrite Hw.
  - by apply read_of_target.
  - done.
  - done.
  - by eexists.
  - pose proof (write_json_atomic_frame NoFault generations_file
                  (VList (l ++ [record])) s images_file) as Hf.
    rewrite Hw in Hf. by apply Hf.
Qed.

Lemma generation_record_appended_witness :
  exists s',
    save_generation_record NoFault "2024-03-01T00:00:00" "2024-03-01T00:00:00"
      "u1" "img1" (VDict []) (∅ : fs)
    = (Returns tt, s').
Proof.
  destruct (generation_record_appended "2024-03-01T00:00:00"
              "2024-03-01T00:00:00" "u1" "img1" (VDict []) [] (∅ : fs))
    as (s' & record & Hs & _).
  - by vm_compute.
  - by exists s'.
Defined.

(** X29: [save_generation_record] never raises, whatever the fault of its
    write and whatever the files hold; when the stored generations are
    valid JSON but not a list, the record is dropped and no file
    changes. *)
Theorem save_generation_record_never_raises (w : write_fault)
    (t_id t_stamp user_id image_id : string) (params : value) (s : fs) :
  (save_generation_record w t_id t_stamp user_id image_id params s).1
  = Returns tt
  /\ forall stored,
       (_read_json_safe generations_file (VList []) s).1 = Returns stored ->
       (forall l, stored <> VList l) ->
       save_generation_record w t_id t_stamp user_id image_id params s
       = (Returns tt, s).
Proof.
  destruct (read_json_safe_returns generations_file (VList []) s) as [v Hv].
  split.
  - unfold save_generation_record, try_except, bind. rewrite Hv.
    destruct v as [| | | |l|]; try done.
    unfold py_append, ret at 1. cbv beta iota.
    by destruct (_write_json_atomic _ _ _ _) as [[[]|e] s'].
  - intros stored Hread Hnl. rewrite Hv in Hread. cbn [fst] in Hread.
    injection Hread as ->.
    unfold save_generation_record, try_except, bind. rewrite Hv.
    destruct stored as [| | | |l|]; try done. by destruct (Hnl l).
Qed.

Lemma save_generation_record_never_raises_witness :
  save_generation_record NoFault "2024-03-01T00:00:00" "2024-03-01T00:00:00"
    "u1" "img1" (VDict []) ({[ generations_file := FJson (VDict []) ]} : fs)
  = (Returns tt, ({[ generations_file := FJson (VDict []) ]} : fs)).
Proof.
  refine (proj2 (save_generation_record_never_raises NoFault
                   "2024-03-01T00:00:00" "2024-03-01T00:00:00" "u1" "img1"
                   (VDict []) ({[ generations_file := FJson (VDict []) ]} : fs))
                (VDict []) _ _).
  - by vm_compute.
  - done.
Defined.

End GenerationRecordExtras.
